(** * Peloton execution core: nested-loop join, tuple storage view, optimizer group

    A shallow embedding of

    - [src/backend/executor/nested_loop_join_executor.cpp]
      (NestedLoopJoinExecutor::DInit and ::DExecute),
    - [src/storage/tuple.h] (the constructors, the destructor, GetValue and
      SetValue of storage::Tuple),
    - [src/include/optimizer/group.h] (the inline members of optimizer::Group),

    followed by the properties of these functions. *)

From Stdlib Require Import ZArith Lia List Bool.
From stdpp Require Import base option list gmap.

Local Open Scope nat_scope.

(** ** Nested-loop join executor *)

Module Executor.

(** [oid_t]: an opaque row location.  The join only copies positions. *)
Definition oid_t : Type := N.

(** Modelled from the spec: the column descriptor of a logical tile's schema
    (logical_tile.h is not among the sources).  The join never looks inside a
    descriptor, it only concatenates two schemas, so a descriptor is an
    identifier of the source column. *)
Definition ColumnInfo : Type := N.

(** Modelled from the spec: LogicalTile (logical_tile.h is not among the
    sources): "schema: ordered column descriptors; position_lists: one ordered
    sequence per column". *)
Record LogicalTile : Type := mkTile {
  GetSchema : list ColumnInfo;
  GetPositionLists : list (list oid_t)
}.

(** Modelled from the spec: the Value returned by the predicate (value.h is
    not among the sources): "evaluate(left_row, right_row) -> {true, false,
    unknown}". *)
Inductive Value : Type := ValueTrue | ValueFalse | ValueUnknown.

(** Modelled from the spec: Value::IsFalse, read as its name says: it holds of
    the result "false" and of no other result. *)
Definition IsFalse (v : Value) : bool :=
  match v with
  | ValueFalse => true
  | ValueTrue | ValueUnknown => false
  end.

(** expression::ContainerTuple<LogicalTile>: a tile and a row index in it. *)
Record ContainerTuple : Type := mkContainerTuple {
  container : LogicalTile;
  tuple_id : nat
}.

(** predicate_->Evaluate(&left_tuple, &right_tuple) *)
Definition AbstractExpression : Type := ContainerTuple -> ContainerTuple -> Value.

(** [lists[c][r]] on a vector of vectors.  Reading out of range is undefined
    in C++; the model reads position 0 there, and the theorems below are
    stated for tiles whose position lists all have the row count as length. *)
Definition position_at (lists : list (list oid_t)) (c r : nat) : oid_t :=
  match lists !! c with
  | Some col => match col !! r with Some p => p | None => 0%N end
  | None => 0%N
  end.

(** [lists[c].push_back(p)] *)
Definition push_back_at (c : nat) (p : oid_t) (lists : list (list oid_t))
  : list (list oid_t) :=
  alter (fun col => col ++ [p]) c lists.

(** Lines 157-162: copy row [row] of the left tile into output columns
    [0 .. left_tile_column_count - 1]. *)
Definition copy_left_row (left_lists : list (list oid_t)) (row : nat)
    (position_lists : list (list oid_t)) : list (list oid_t) :=
  foldl (fun pl c => push_back_at c (position_at left_lists c row) pl)
        position_lists (seq 0 (length left_lists)).

(** Lines 165-170: copy row [row] of the right tile into output columns
    [left_tile_column_count ..]. *)
Definition copy_right_row (left_tile_column_count : nat)
    (right_lists : list (list oid_t)) (row : nat)
    (position_lists : list (list oid_t)) : list (list oid_t) :=
  foldl (fun pl c =>
           push_back_at (left_tile_column_count + c)
                        (position_at right_lists c row) pl)
        position_lists (seq 0 (length right_lists)).

(** Lines 142-152: the pair is skipped when a predicate exists and its value
    on the pair IsFalse. *)
Definition skip_pair (predicate_ : option AbstractExpression)
    (left_tile right_tile : LogicalTile) (i j : nat) : bool :=
  match predicate_ with
  | Some p => IsFalse (p (mkContainerTuple left_tile i)
                         (mkContainerTuple right_tile j))
  | None => false
  end.

(** Lines 136-172: the body of the outer loop for left row [i]. *)
Definition join_left_row (predicate_ : option AbstractExpression)
    (left_tile right_tile : LogicalTile) (right_tile_row_count : nat)
    (i : nat) (position_lists : list (list oid_t)) : list (list oid_t) :=
  let left_lists := GetPositionLists left_tile in
  let right_lists := GetPositionLists right_tile in
  foldl (fun pl j =>
           if skip_pair predicate_ left_tile right_tile i j then pl
           else copy_right_row (length left_lists) right_lists j
                  (copy_left_row left_lists i pl))
        position_lists (seq 0 right_tile_row_count).

(** [lists[0].size()] *)
Definition row_count (lists : list (list oid_t)) : nat :=
  match lists !! 0 with
  | Some col => length col
  | None => 0
  end.

(** Lines 114-173: the position lists of the output tile. *)
Definition join_position_lists (predicate_ : option AbstractExpression)
    (left_tile right_tile : LogicalTile) : list (list oid_t) :=
  let left_lists := GetPositionLists left_tile in
  let right_lists := GetPositionLists right_tile in
  let output_tile_column_count := length left_lists + length right_lists in
  let left_tile_row_count := row_count left_lists in
  let right_tile_row_count := row_count right_lists in
  foldl (fun pl i =>
           join_left_row predicate_ left_tile right_tile right_tile_row_count i pl)
        (replicate output_tile_column_count [])
        (seq 0 left_tile_row_count).

(** Lines 100-107: the schema of the output tile. *)
Definition join_schema (left_tile right_tile : LogicalTile) : list ColumnInfo :=
  GetSchema left_tile ++ GetSchema right_tile.

(** How one activation of DExecute ends: it returns a boolean, or one of its
    [assert]s fails. *)
Inductive Outcome : Type :=
  | Returned (b : bool)
  | AssertionFailed.

(** Lines 97-181 on a pair of tiles, up to the choice between publishing and
    retrying: the assertions on the column counts, then the output tile.
    [JoinOutput t] is the tile handed to SetOutput; [JoinEmpty] is the case
    [position_lists[0].size() == 0]. *)
Inductive JoinResult : Type :=
  | JoinAssertionFailed
  | JoinEmpty
  | JoinOutput (t : LogicalTile).

Definition join_tiles (predicate_ : option AbstractExpression)
    (left_tile right_tile : LogicalTile) : JoinResult :=
  let left_tile_column_count := length (GetPositionLists left_tile) in
  let right_tile_column_count := length (GetPositionLists right_tile) in
  if (0 <? left_tile_column_count) && (0 <? right_tile_column_count) then
    let position_lists := join_position_lists predicate_ left_tile right_tile in
    if 0 <? row_count position_lists then
      JoinOutput (mkTile (join_schema left_tile right_tile) position_lists)
    else JoinEmpty
  else JoinAssertionFailed.

(** The operator contract of a child (AbstractExecutor is not among the
    sources): Execute advances and tells whether a tile is available, Init
    restarts the iteration, GetOutput hands out a tile pointer, which may be
    null. *)
Class AbstractExecutor (S : Type) : Type := {
  Execute : S -> bool * S;
  Init : S -> bool * S;
  GetOutput : S -> option LogicalTile * S
}.

(** The calls the join makes on its children that move their iteration, kept
    as a history (newest first) so that properties of the call sequence can be
    stated.  The history is not a member of the C++ class. *)
Inductive ChildCall : Type :=
  | RightExecute (ok : bool)
  | RightInit
  | LeftExecute (ok : bool).

Record NestedLoopJoinExecutor (L R : Type) : Type := mkJoin {
  children_0 : L;
  children_1 : R;
  predicate_ : option AbstractExpression;
  left_scan_start : bool;
  output : option LogicalTile;
  calls : list ChildCall
}.
Arguments mkJoin {L R}.
Arguments children_0 {L R}.
Arguments children_1 {L R}.
Arguments predicate_ {L R}.
Arguments left_scan_start {L R}.
Arguments output {L R}.
Arguments calls {L R}.

Section Join.
Context {L R : Type} `{AbstractExecutor L} `{AbstractExecutor R}.

Abbreviation Join := (NestedLoopJoinExecutor L R).

(** DInit: the predicate comes from the plan node and may be absent;
    [left_scan_start] is set.  The assertion [children_.size() == 2] holds by
    the shape of the record. *)
Definition DInit (node_predicate : option AbstractExpression) (e : Join)
  : bool * Join :=
  (true, mkJoin (children_0 e) (children_1 e) node_predicate true
                (output e) (calls e)).

(** Lines 59-73: pull the next right tile, restarting the right child once
    when it is exhausted.  The result is [right_scan_end] and the children
    afterwards, or [None] for "return false" at line 71. *)
Definition pull_right (e : Join) : option bool * Join :=
  let '(got, r1) := Execute (children_1 e) in
  let right_scan_end := negb got in
  let log1 := RightExecute got :: calls e in
  if right_scan_end then
    let '(_, r2) := Init r1 in
    let '(again, r3) := Execute r2 in
    let e' := mkJoin (children_0 e) r3 (predicate_ e) (left_scan_start e)
                     (output e) (RightExecute again :: RightInit :: log1) in
    if again then (Some right_scan_end, e') else (None, e')
  else
    (Some right_scan_end,
     mkJoin (children_0 e) r1 (predicate_ e) (left_scan_start e)
            (output e) log1).

(** Lines 77-88: pull the next left tile on the first scan or after a
    restart of the right child.  [false] is "return false" at line 82. *)
Definition pull_left (right_scan_end : bool) (e : Join) : bool * Join :=
  if left_scan_start e || right_scan_end then
    let '(got, l1) := Execute (children_0 e) in
    (got, mkJoin l1 (children_1 e) (predicate_ e) false (output e)
                 (LeftExecute got :: calls e))
  else (true, e).

(** Lines 90-95: take the two tiles from the children. *)
Definition take_tiles (e : Join)
  : option (LogicalTile * LogicalTile) * Join :=
  let '(lt, l1) := GetOutput (children_0 e) in
  let '(rt, r1) := GetOutput (children_1 e) in
  let e' := mkJoin l1 r1 (predicate_ e) (left_scan_start e) (output e)
                   (calls e) in
  match lt, rt with
  | Some left_tile, Some right_tile => (Some (left_tile, right_tile), e')
  | _, _ => (None, e')
  end.

(** SetOutput *)
Definition SetOutput (t : LogicalTile) (e : Join) : Join :=
  mkJoin (children_0 e) (children_1 e) (predicate_ e) (left_scan_start e)
         (Some t) (calls e).

(** DExecute.  The function calls itself at line 187; [depth] bounds the
    number of nested activations, and [None] means that [depth] nested
    activations were not enough.  The value of the nested call is dropped
    (line 187 is a statement) and line 190 returns true; a failed assertion
    in the nested call aborts the whole call. *)
Fixpoint DExecute (depth : nat) (e : Join) : option (Outcome * Join) :=
  match depth with
  | O => None
  | S depth' =>
    match pull_right e with
    | (None, e1) => Some (Returned false, e1)
    | (Some right_scan_end, e1) =>
      match pull_left right_scan_end e1 with
      | (false, e2) => Some (Returned false, e2)
      | (true, e2) =>
        match take_tiles e2 with
        | (None, e3) => Some (AssertionFailed, e3)
        | (Some (left_tile, right_tile), e3) =>
          match join_tiles (predicate_ e3) left_tile right_tile with
          | JoinAssertionFailed => Some (AssertionFailed, e3)
          | JoinOutput t => Some (Returned true, SetOutput t e3)
          | JoinEmpty =>
            match DExecute depth' e3 with
            | None => None
            | Some (AssertionFailed, e4) => Some (AssertionFailed, e4)
            | Some (Returned _, e4) => Some (Returned true, e4)
            end
          end
        end
      end
    end
  end.

(** [n] consecutive calls of DExecute by the parent operator, each allowed
    [depth] nested activations.  A failed assertion ends the run. *)
Fixpoint advances (depth n : nat) (e : Join) : option (list Outcome * Join) :=
  match n with
  | O => Some ([], e)
  | S n' =>
    match DExecute depth e with
    | None => None
    | Some (AssertionFailed, e1) => Some ([AssertionFailed], e1)
    | Some (Returned b, e1) =>
      match advances depth n' e1 with
      | None => None
      | Some (outcomes, e2) => Some (Returned b :: outcomes, e2)
      end
    end
  end.

(** The state in which an activation of DExecute calls itself (line 187),
    when it does: both pulls succeeded, both tiles are there and have columns,
    and no pair of rows was emitted. *)
Definition retry_state (e : Join) : option Join :=
  match pull_right e with
  | (None, _) => None
  | (Some right_scan_end, e1) =>
    match pull_left right_scan_end e1 with
    | (false, _) => None
    | (true, e2) =>
      match take_tiles e2 with
      | (None, _) => None
      | (Some (left_tile, right_tile), e3) =>
        match join_tiles (predicate_ e3) left_tile right_tile with
        | JoinEmpty => Some e3
        | _ => None
        end
      end
    end
  end.

(** The state in which the [n]-th nested activation of a call starts. *)
Fixpoint nested_activation (n : nat) (e : Join) : option Join :=
  match n with
  | O => Some e
  | S n' =>
    match retry_state e with
    | None => None
    | Some e3 => nested_activation n' e3
    end
  end.

(** The state in which an activation meets an exhausted child, when it does:
    the right child gives no tile even after its restart (line 71), or the
    left child gives none when it is advanced (line 82). *)
Definition exhausted_state (e : Join) : option Join :=
  match pull_right e with
  | (None, e1) => Some e1
  | (Some right_scan_end, e1) =>
    match pull_left right_scan_end e1 with
    | (false, e2) => Some e2
    | (true, _) => None
    end
  end.

End Join.

(** Modelled from the spec: a child operator (AbstractExecutor and the
    operators below the join are not among the sources): "init(): establish
    or re-establish iteration state; callable again after exhaustion to
    restart from the beginning.  advance() -> bool: true means a new output
    batch is available, false means exhausted for now.  take_output() ->
    batch: ownership transfers to the caller; callable once per successful
    advance."  The child produces the tiles of [tiles] in order.  The spec
    does not say what a second take_output without an advance in between
    returns: with [hands_over = false] the child still gives its current
    tile, with [hands_over = true] it has given the tile away and returns
    null. *)
Record TileSource : Type := mkSource {
  tiles : list LogicalTile;
  pending : list LogicalTile;
  current : option LogicalTile;
  hands_over : bool
}.

Definition source_Execute (s : TileSource) : bool * TileSource :=
  match pending s with
  | [] => (false, s)
  | t :: rest => (true, mkSource (tiles s) rest (Some t) (hands_over s))
  end.

Definition source_Init (s : TileSource) : bool * TileSource :=
  (true, mkSource (tiles s) (tiles s) (current s) (hands_over s)).

Definition source_GetOutput (s : TileSource) : option LogicalTile * TileSource :=
  (current s,
   if hands_over s then mkSource (tiles s) (pending s) None true else s).

#[export] Instance TileSource_executor : AbstractExecutor TileSource := {|
  Execute := source_Execute;
  Init := source_Init;
  GetOutput := source_GetOutput
|}.

(** A child that has not been advanced yet. *)
Definition source_of (hand_over : bool) (ts : list LogicalTile) : TileSource :=
  mkSource ts ts None hand_over.

(** A join over two fresh children, after DInit. *)
Definition join_of (hand_over : bool) (node_predicate : option AbstractExpression)
    (left_tiles right_tiles : list LogicalTile)
  : NestedLoopJoinExecutor TileSource TileSource :=
  snd (DInit node_predicate
         (mkJoin (source_of hand_over left_tiles) (source_of hand_over right_tiles)
                 None false None [])).

(** *** Descriptions used to state the properties *)

(** The pairs of rows (left row, right row) that are not skipped, in
    left-major, right-minor order. *)
Definition emitted_pairs (predicate_ : option AbstractExpression)
    (left_tile right_tile : LogicalTile) : list (nat * nat) :=
  List.filter (fun p => negb (skip_pair predicate_ left_tile right_tile (fst p) (snd p)))
    (list_prod (seq 0 (row_count (GetPositionLists left_tile)))
               (seq 0 (row_count (GetPositionLists right_tile)))).

(** The position in output column [c] of the output row made from the pair
    [p]: the left tile's column [c] for the first columns, the right tile's
    column [c - left column count] for the others. *)
Definition output_cell (left_tile right_tile : LogicalTile) (c : nat)
    (p : nat * nat) : oid_t :=
  if c <? length (GetPositionLists left_tile)
  then position_at (GetPositionLists left_tile) c (fst p)
  else position_at (GetPositionLists right_tile)
                   (c - length (GetPositionLists left_tile)) (snd p).

(** The position lists whose rows are made from [pairs], in order. *)
Definition columns_of (left_tile right_tile : LogicalTile)
    (pairs : list (nat * nat)) : list (list oid_t) :=
  (fun c => output_cell left_tile right_tile c <$> pairs)
    <$> seq 0 (length (GetPositionLists left_tile)
               + length (GetPositionLists right_tile)).

(** Appending the rows made from [pairs] to every column. *)
Definition append_pairs (left_tile right_tile : LogicalTile)
    (pairs : list (nat * nat)) (pl : list (list oid_t)) : list (list oid_t) :=
  imap (fun c col => col ++ (output_cell left_tile right_tile c <$> pairs)) pl.

(** Every position list of the tile has the row count as length. *)
Definition rectangular (t : LogicalTile) : Prop :=
  Forall (fun col => length col = row_count (GetPositionLists t))
         (GetPositionLists t).

(** The pairs of tiles still to be examined, counted generously. *)
Definition remaining_pairs (e : NestedLoopJoinExecutor TileSource TileSource) : nat :=
  length (pending (children_0 e)) * S (length (tiles (children_1 e)))
  + length (pending (children_1 e)).

(** The discipline of the calls on the children, as an automaton over the
    history (oldest call first).  [Ready start]: between two passes, [start]
    telling that no left tile has been pulled yet; [RightExhausted]: the right
    child has just reported exhaustion; [RightRestarted]: it has been
    initialised again; [LeftDue]: the next call must advance the left child. *)
Inductive Pace : Type :=
  | Ready (start : bool)
  | RightExhausted (start : bool)
  | RightRestarted (start : bool)
  | LeftDue.

Definition pace_step (p : Pace) (c : ChildCall) : option Pace :=
  match p, c with
  | Ready start, RightExecute true => Some (if start then LeftDue else Ready false)
  | Ready start, RightExecute false => Some (RightExhausted start)
  | RightExhausted start, RightInit => Some (RightRestarted start)
  | RightRestarted start, RightExecute true => Some LeftDue
  | RightRestarted start, RightExecute false => Some (Ready start)
  | LeftDue, LeftExecute _ => Some (Ready false)
  | _, _ => None
  end.

Fixpoint pace_run (p : Pace) (history : list ChildCall) : option Pace :=
  match history with
  | [] => Some p
  | c :: rest =>
    match pace_step p c with
    | Some p' => pace_run p' rest
    | None => None
    end
  end.

(** The calls of the history are paced: every advance of the left child comes
    immediately after the first successful pull of a right tile or
    immediately after a successful restart of the right child, and each of
    those is immediately followed by an advance of the left child. *)
Definition paced (left_scan_start : bool) (newest_first : list ChildCall) : Prop :=
  pace_run (Ready true) (rev newest_first) = Some (Ready left_scan_start).

(** The number of advances of the left child in a history. *)
Fixpoint left_advances (history : list ChildCall) : nat :=
  match history with
  | [] => 0
  | LeftExecute _ :: rest => S (left_advances rest)
  | _ :: rest => left_advances rest
  end.

(** The discipline read off a history (oldest call first):
    - an advance of the left child comes immediately after a successful pull
      of a right tile, which is the first pull ever followed by a left
      advance (no left advance before it) or the pull that follows the
      exhaustion and the restart of the right child;
    - a successful restart of the right child is immediately followed by an
      advance of the left child;
    - so is a successful pull of a right tile as long as the left child has
      not been advanced. *)
Definition left_advance_discipline (history : list ChildCall) : Prop :=
  (forall before ok after,
     history = before ++ LeftExecute ok :: after ->
     exists earlier,
       before = earlier ++ [RightExecute true]
       /\ (left_advances earlier = 0
           \/ exists older, earlier = older ++ [RightExecute false; RightInit]))
  /\ (forall before after,
        history = before ++ RightInit :: RightExecute true :: after ->
        exists ok rest, after = LeftExecute ok :: rest)
  /\ (forall before after,
        history = before ++ RightExecute true :: after ->
        left_advances before = 0 ->
        exists ok rest, after = LeftExecute ok :: rest).

(** *** Inputs of the examples *)

(** One column of positions. *)
Definition column_tile (c : ColumnInfo) (positions : list oid_t) : LogicalTile :=
  mkTile [c] [positions].

(** The tiles of the examples: the left ones have column descriptor 1, the
    right ones column descriptor 2. *)
Definition left_10 : LogicalTile := column_tile 1%N [10%N].
Definition left_10_20 : LogicalTile := column_tile 1%N [10%N; 20%N].
Definition left_no_rows : LogicalTile := column_tile 1%N [].
Definition left_no_columns : LogicalTile := mkTile [] [].
Definition right_5 : LogicalTile := column_tile 2%N [5%N].
Definition right_6 : LogicalTile := column_tile 2%N [6%N].
Definition right_5_15_25 : LogicalTile := column_tile 2%N [5%N; 15%N; 25%N].

(** The join over the left tile {10, 20} and the right tiles {5}, {6}, without
    predicate, over children that hand their tile over, after its first
    advance. *)
Definition after_first_advance
  : NestedLoopJoinExecutor TileSource TileSource :=
  mkJoin (mkSource [left_10_20] [] None true)
         (mkSource [right_5; right_6] [right_6] None true)
         None false
         (Some (mkTile [1%N; 2%N] [[10%N; 20%N]; [5%N; 5%N]]))
         [LeftExecute true; RightExecute true].

(** The predicate left.col0 < right.col0 on positions; unknown is not
    produced. *)
Definition less_than : AbstractExpression :=
  fun l r =>
    if (position_at (GetPositionLists (container l)) 0 (tuple_id l)
        <? position_at (GetPositionLists (container r)) 0 (tuple_id r))%N
    then ValueTrue else ValueFalse.

Definition always_false : AbstractExpression := fun _ _ => ValueFalse.

Definition always_unknown : AbstractExpression := fun _ _ => ValueUnknown.

(** The state of the join over the left tile {10} and the right tiles {5},
    {6} between two calls by the parent, once the first call has returned:
    the left child is exhausted and still shows {10}, the right child has
    been restarted and has {6} pending. *)
Definition spinning (history : list ChildCall)
  : NestedLoopJoinExecutor TileSource TileSource :=
  mkJoin (mkSource [left_10] [] (Some left_10) false)
         (mkSource [right_5; right_6] [right_6] (Some right_5) false)
         (Some always_false) false None history.

(** The join over [n] pending left tiles {10} and the single right tile {5},
    which has been pulled, under a predicate that is false of every pair. *)
Definition retrying (hand_over : bool) (total n : nat)
    (left_current right_current : option LogicalTile)
    (out : option LogicalTile) (history : list ChildCall)
  : NestedLoopJoinExecutor TileSource TileSource :=
  mkJoin (mkSource (replicate total left_10) (replicate n left_10)
                   left_current hand_over)
         (mkSource [right_5] [] right_current hand_over)
         (Some always_false) false out history.

Definition right_25 : LogicalTile := column_tile 2%N [25%N].

(** *** The parent's loop *)

(** A predicate that holds of every pair. *)
Definition always_true : AbstractExpression := fun _ _ => ValueTrue.

(** The tile that the join of two tiles publishes, if it publishes one. *)
Definition joined (predicate_ : option AbstractExpression)
    (left_tile right_tile : LogicalTile) : option LogicalTile :=
  match join_tiles predicate_ left_tile right_tile with
  | JoinOutput t => Some t
  | JoinEmpty | JoinAssertionFailed => None
  end.

(** The loop of a parent operator that consumes the join: it calls DExecute
    and reads the output member after every call that returned true, until a
    call returns false.  [n] bounds the number of calls, [depth] the nested
    activations of each; a failed assertion, or a call that is not finished
    within the bounds, gives [None]. *)
Fixpoint drain {L R : Type} `{AbstractExecutor L} `{AbstractExecutor R}
    (depth n : nat) (e : NestedLoopJoinExecutor L R)
  : option (list (option LogicalTile) * NestedLoopJoinExecutor L R) :=
  match n with
  | O => None
  | S n' =>
    match DExecute depth e with
    | None => None
    | Some (AssertionFailed, _) => None
    | Some (Returned false, e1) => Some ([], e1)
    | Some (Returned true, e1) =>
      match drain depth n' e1 with
      | None => None
      | Some (outputs, e2) => Some (output e1 :: outputs, e2)
      end
    end
  end.

(** The tiles of [ls] paired with the tiles of [rs] all give an output
    tile. *)
Definition all_productive (predicate_ : option AbstractExpression)
    (ls rs : list LogicalTile) : Prop :=
  Forall (fun l => Forall (fun r => is_Some (joined predicate_ l r)) rs) ls.

(** A join over two children that still give their current tile, in the
    middle of a run: [lp] and [rp] are the tiles the children have not
    produced yet, [lc] and [rc] the tiles they show. *)
Definition running (predicate_ : option AbstractExpression)
    (ls rs lp : list LogicalTile) (lc : option LogicalTile)
    (rp : list LogicalTile) (rc : option LogicalTile) (start : bool)
    (out : option LogicalTile) (history : list ChildCall)
  : NestedLoopJoinExecutor TileSource TileSource :=
  mkJoin (mkSource ls lp lc false) (mkSource rs rp rc false)
         predicate_ start out history.

(** The tiles published for the pairs of [ls] and [rs], in left-major,
    right-minor order. *)
Definition joined_all (predicate_ : option AbstractExpression)
    (ls rs : list LogicalTile) : list (option LogicalTile) :=
  (fun p => joined predicate_ (fst p) (snd p)) <$> list_prod ls rs.

End Executor.

(** ** Tuple: a view over a row buffer *)

Module Storage.

Local Open Scope Z_scope.

(** A byte of a row buffer, as a number in [0, 256). *)
Definition byte : Type := Z.

(** [char *]: the address of a heap block; the null pointer is [None]. *)
Abbreviation address := N.

(** The heap: the live blocks and their bytes.  [new char[n]] adds a block,
    [delete[] p] removes it. *)
Abbreviation Heap := (gmap N (list byte)).

(** The interface of Value (value.h is not among the sources) as far as
    GetValue and SetValue use it.  [Serialize v is_inlined length] is the
    bytes that [value.Serialize(dataPtr, is_inlined, length)] writes at
    [dataPtr]; [Deserialize bytes type is_inlined] is
    [Value::Deserialize(data_ptr, type, is_inlined)] on the bytes that start
    at [data_ptr]. *)
Class ValueInterface (Value ValueType : Type) : Type := {
  CastAs : Value -> ValueType -> Value;
  Serialize : Value -> bool -> Z -> list byte;
  Deserialize : list byte -> ValueType -> bool -> Value
}.

Section Tuple.
Context {Value ValueType : Type} `{ValueInterface Value ValueType}.

(** Modelled from the spec: the column descriptor of catalog::Schema
    (schema.h is not among the sources): "total length; per-column type,
    inlined flag, fixed length, variable-length bound", and "column i's bytes
    begin at the schema's fixed offset for i". *)
Record Column : Type := mkColumn {
  column_type : ValueType;
  column_offset : nat;
  is_inlined : bool;
  fixed_length : Z;
  variable_length : Z
}.

Record Schema : Type := mkSchema {
  columns : list Column;
  length_ : nat
}.

(** storage::Tuple: the two data members.  The schema is held by value here;
    the tuple never frees it. *)
Record Tuple : Type := mkTuple {
  tuple_schema : option Schema;
  tuple_data : option address
}.

(** Tuple() *)
Definition Tuple_default : Tuple := mkTuple None None.

(** Tuple(const Tuple &rhs) *)
Definition Tuple_copy (rhs : Tuple) : Tuple :=
  mkTuple (tuple_schema rhs) (tuple_data rhs).

(** Tuple(catalog::Schema *schema) *)
Definition Tuple_of_schema (schema : Schema) : Tuple :=
  mkTuple (Some schema) None.

(** Tuple(catalog::Schema *schema, char *data): a view over the caller's
    buffer. *)
Definition Tuple_over (schema : Schema) (data : address) : Tuple :=
  mkTuple (Some schema) (Some data).

(** Tuple(catalog::Schema *schema, bool allocate): with [allocate], a block of
    the schema's length is taken from the heap.  Its bytes are not
    initialised in C++; they are zeros here. *)
Definition Tuple_allocate (schema : Schema) (allocate : bool) (h : Heap)
  : Tuple * Heap :=
  if allocate then
    let p := fresh (dom h) in
    (mkTuple (Some schema) (Some p), <[p := replicate (length_ schema) 0]> h)
  else (mkTuple (Some schema) None, h).

(** ~Tuple(): [delete[] tuple_data]; deleting the null pointer does nothing. *)
Definition Tuple_destroy (t : Tuple) (h : Heap) : Heap :=
  match tuple_data t with
  | Some p => delete p h
  | None => h
  end.

(** Move(address) *)
Definition Move (t : Tuple) (a : option address) : Tuple :=
  mkTuple (tuple_schema t) a.

(** SetNull() *)
Definition SetNull (t : Tuple) : Tuple := mkTuple (tuple_schema t) None.

(** Modelled from the spec: the accessors of catalog::Schema (schema.h is not
    among the sources).  A column that the schema does not have gives
    [None]; C++ leaves that access undefined. *)
Definition GetType (schema : Schema) (column_id : nat) : option ValueType :=
  column_type <$> columns schema !! column_id.

Definition IsInlined (schema : Schema) (column_id : nat) : option bool :=
  is_inlined <$> columns schema !! column_id.

Definition GetOffset (schema : Schema) (column_id : nat) : option nat :=
  column_offset <$> columns schema !! column_id.

Definition GetLength (schema : Schema) (column_id : nat) : option Z :=
  fixed_length <$> columns schema !! column_id.

Definition GetVariableLength (schema : Schema) (column_id : nat) : option Z :=
  variable_length <$> columns schema !! column_id.

(** Modelled from the spec: Tuple::GetDataPtr (tuple.cpp is not among the
    sources): "column i's bytes begin at the schema's fixed offset for i".
    The pointer is given as the offset into the tuple's buffer. *)
Definition GetDataPtr (t : Tuple) (column_id : nat) : option nat :=
  schema ← tuple_schema t; GetOffset schema column_id.

(** Writing [bytes] into a buffer from offset [off] on.  This is what the
    write of line 259 does as long as the bytes lie within the buffer
    ([off + length bytes <= length buffer]); a write past the end of the
    buffer is an overrun in C++, which no list describes, and the theorems
    on SetValue assume that the bytes lie within the buffer. *)
Definition store (off : nat) (bytes buffer : list byte) : list byte :=
  take off buffer ++ bytes ++ drop (off + length bytes) buffer.

(** GetValue.  [None] stands for a failed assertion (unset schema or
    buffer) and for what C++ leaves undefined: a column that the schema does
    not have, a buffer that is not live. *)
Definition GetValue (h : Heap) (t : Tuple) (column_id : nat) : option Value :=
  schema ← tuple_schema t;
  p ← tuple_data t;
  column_type ← GetType schema column_id;
  data_ptr ← GetDataPtr t column_id;
  is_inlined ← IsInlined schema column_id;
  buffer ← h !! p;
  Some (Deserialize (drop data_ptr buffer) column_type is_inlined).

(** SetValue: the value is cast to the column's type, then serialized in
    place.  [None] as for GetValue. *)
Definition SetValue (h : Heap) (t : Tuple) (column_id : nat) (value : Value)
  : option Heap :=
  schema ← tuple_schema t;
  p ← tuple_data t;
  type ← GetType schema column_id;
  let value := CastAs value type in
  is_inlined ← IsInlined schema column_id;
  dataPtr ← GetDataPtr t column_id;
  column_length ← GetLength schema column_id;
  column_length ← (if is_inlined then Some column_length
                   else GetVariableLength schema column_id);
  buffer ← h !! p;
  Some (<[p := store dataPtr (Serialize value is_inlined column_length) buffer]> h).

End Tuple.

Arguments Column : clear implicits.
Arguments Schema : clear implicits.
Arguments Tuple : clear implicits.

(** *** A small Value, for the examples *)

(** Modelled from the spec: a Value with two inlined integer types and one
    type stored out of line (value.h is not among the sources): "Inlined
    columns store the value directly; non-inlined columns store a handle to
    out-of-line storage".  A value is its type and a number: the integer, or
    the address of the out-of-line object. *)
Inductive ValueType : Type := INTEGER | BIGINT | VARCHAR.

Record Value : Type := mkValue {
  GetValueType : ValueType;
  number : Z
}.

Definition width (type : ValueType) : nat :=
  match type with
  | INTEGER => 4
  | BIGINT | VARCHAR => 8
  end%nat.

(** [n] bytes of [z], least significant first, in two's complement. *)
Fixpoint encode (n : nat) (z : Z) : list byte :=
  match n with
  | O => []
  | S n' => z mod 256 :: encode n' (z / 256)
  end.

Fixpoint decode_unsigned (bytes : list byte) : Z :=
  match bytes with
  | [] => 0
  | b :: rest => b + 256 * decode_unsigned rest
  end.

Definition decode (n : nat) (bytes : list byte) : Z :=
  let u := decode_unsigned (take n bytes) in
  if u <? 2 ^ (8 * Z.of_nat n - 1) then u else u - 2 ^ (8 * Z.of_nat n).

(** The values that the encoding holds: those within the range of their
    type. *)
Definition supported (v : Value) : Prop :=
  - 2 ^ (8 * Z.of_nat (width (GetValueType v)) - 1) <= number v
  < 2 ^ (8 * Z.of_nat (width (GetValueType v)) - 1).

#[export] Instance small_Value : ValueInterface Value ValueType := {|
  CastAs := fun v type => mkValue type (number v);
  Serialize := fun v _ _ => encode (width (GetValueType v)) (number v);
  Deserialize := fun bytes type _ => mkValue type (decode (width type) bytes)
|}.

(** A schema with an INTEGER column at offset 0 and a BIGINT column at
    offset 4, and a buffer for it. *)
Definition two_columns : Schema ValueType :=
  mkSchema [mkColumn INTEGER 0 true 4 0; mkColumn BIGINT 4 true 8 0] 12.

Definition caller_heap : Heap := {[ 7%N := replicate 12 0 ]}.

(** The same heap with an out-of-line payload at address 9. *)
Definition payload_heap : Heap := <[ 9%N := [104; 105] ]> caller_heap.

(** The bytes that SetValue writes for [v] in the column [col]: the
    serialization of the cast value, with the length that lines 254-257
    choose. *)
Definition written {Value ValueType : Type} `{ValueInterface Value ValueType}
    (col : Column ValueType) (v : Value) : list byte :=
  Serialize (CastAs v (column_type col)) (is_inlined col)
    (if is_inlined col then fixed_length col else variable_length col).

(** *** The other inline members of Tuple *)

Section TupleMembers.
Context {VT : Type}.

(** Tuple(char *data, catalog::Schema *schema), lines 213-219. *)
Definition Tuple_at (data : address) (schema : Schema VT) : Tuple VT :=
  mkTuple (Some schema) (Some data).

(** operator=, lines 221-225: both members are copied from [rhs]. *)
Definition Tuple_assign (this rhs : Tuple VT) : Tuple VT :=
  mkTuple (tuple_schema rhs) (tuple_data rhs).

(** Location() *)
Definition Location (t : Tuple VT) : option address := tuple_data t.

(** IsNull(): [tuple_data == NULL]. *)
Definition IsNull (t : Tuple VT) : bool :=
  match tuple_data t with
  | Some _ => false
  | None => true
  end.

(** GetSchema() *)
Definition Tuple_GetSchema (t : Tuple VT) : option (Schema VT) := tuple_schema t.

(** GetLength(): [tuple_schema->GetLength()]; [None] when the schema is
    unset, which C++ leaves undefined. *)
Definition Tuple_GetLength (t : Tuple VT) : option nat :=
  length_ <$> tuple_schema t.

(** GetColumnCount(): [tuple_schema->GetColumnCount()]. *)
Definition GetColumnCount (t : Tuple VT) : option nat :=
  (fun schema => length (columns schema)) <$> tuple_schema t.

(** GetType(column_id): [tuple_schema->GetType(column_id)]. *)
Definition Tuple_GetType (t : Tuple VT) (column_id : nat) : option VT :=
  schema ← tuple_schema t; GetType schema column_id.

End TupleMembers.

End Storage.

(** ** Optimizer group *)

Module Optimizer.

(** GroupID = int32_t *)
Definition GroupID : Type := Z.

Definition UNDEFINED_GROUP : GroupID := (-1)%Z.

(** optimizer::Group.  Operator, GroupExpression and PropertySet are not
    among the sources; the members that hold them are kept as lists of
    opaque identifiers, and no function below reads them. *)
Record Group : Type := mkGroup {
  id_ : GroupID;
  items_ : list N;
  expressions_ : list N;
  lowest_cost_expressions_ : list (N * N);
  has_explored_ : bool;
  has_implemented_ : bool
}.

Definition SetExplorationFlag (g : Group) : Group :=
  mkGroup (id_ g) (items_ g) (expressions_ g) (lowest_cost_expressions_ g)
          true (has_implemented_ g).

Definition HasExplored (g : Group) : bool := has_explored_ g.

Definition SetImplementationFlag (g : Group) : Group :=
  mkGroup (id_ g) (items_ g) (expressions_ g) (lowest_cost_expressions_ g)
          (has_explored_ g) true.

Definition HasImplemented (g : Group) : bool := has_implemented_ g.

(** The member functions defined in group.h, as operations on a group. *)
Inductive GroupCall : Type :=
  | CallSetExplorationFlag
  | CallHasExplored
  | CallSetImplementationFlag
  | CallHasImplemented.

Definition call (g : Group) (c : GroupCall) : Group :=
  match c with
  | CallSetExplorationFlag => SetExplorationFlag g
  | CallSetImplementationFlag => SetImplementationFlag g
  | CallHasExplored | CallHasImplemented => g
  end.

(** A sequence of calls on a group, first call first. *)
Definition calls_on (g : Group) (cs : list GroupCall) : Group :=
  foldl call g cs.

(** Whether a call is the one that sets the exploration flag, or the one
    that sets the implementation flag. *)
Definition sets_exploration (c : GroupCall) : bool :=
  match c with
  | CallSetExplorationFlag => true
  | _ => false
  end.

Definition sets_implementation (c : GroupCall) : bool :=
  match c with
  | CallSetImplementationFlag => true
  | _ => false
  end.

(** The implicit copy assignment [*this = rhs].  The class declares no copy
    operation (lines 32-65), so the compiler provides the public memberwise
    one: every data member of lines 53-64 is assigned from [rhs]. *)
Definition Group_assign (this rhs : Group) : Group :=
  mkGroup (id_ rhs) (items_ rhs) (expressions_ rhs)
          (lowest_cost_expressions_ rhs)
          (has_explored_ rhs) (has_implemented_ rhs).

(** A group with both flags down, and one with both flags set through the
    setters. *)
Definition unexplored_group : Group := mkGroup 1%Z [] [] [] false false.

Definition explored_group : Group :=
  SetImplementationFlag (SetExplorationFlag (mkGroup 0%Z [] [] [] false false)).

End Optimizer.

(** ** Properties of the nested-loop join executor *)

Module JoinProperties.
Import Executor.

(** *** The loops over the position lists *)

(** A run of [push_back]s on the columns [off .. off + n - 1]. *)
Lemma foldl_alter_lookup (g : nat -> list oid_t -> list oid_t) (off n : nat)
    (pl : list (list oid_t)) (k : nat) :
  foldl (fun pl c => alter (g c) (off + c) pl) pl (seq 0 n) !! k
  = if decide (off <= k < off + n) then g (k - off) <$> pl !! k else pl !! k.
Proof.
  induction n as [|n IH].
  - simpl. case_decide; [lia | reflexivity].
  - rewrite seq_S, foldl_app. simpl.
    destruct (decide (off + n = k)) as [<-|Hne].
    + rewrite list_lookup_alter_eq, IH.
      rewrite decide_False by lia. rewrite decide_True by lia.
      replace (off + n - off) with n by lia. reflexivity.
    + rewrite list_lookup_alter_ne by assumption. rewrite IH.
      destruct (decide (off <= k < off + n)), (decide (off <= k < off + S n));
        try reflexivity; lia.
Qed.

Lemma copy_left_row_lookup (left_lists : list (list oid_t)) (i : nat)
    (pl : list (list oid_t)) (k : nat) :
  copy_left_row left_lists i pl !! k
  = if decide (k < length left_lists)
    then (fun col => col ++ [position_at left_lists k i]) <$> pl !! k
    else pl !! k.
Proof.
  unfold copy_left_row, push_back_at.
  rewrite (foldl_alter_lookup
             (fun c col => col ++ [position_at left_lists c i]) 0).
  replace (k - 0) with k by lia.
  destruct (decide (0 <= k < 0 + length left_lists)),
           (decide (k < length left_lists)); try reflexivity; lia.
Qed.

Lemma copy_right_row_lookup (off : nat) (right_lists : list (list oid_t))
    (j : nat) (pl : list (list oid_t)) (k : nat) :
  copy_right_row off right_lists j pl !! k
  = if decide (off <= k < off + length right_lists)
    then (fun col => col ++ [position_at right_lists (k - off) j]) <$> pl !! k
    else pl !! k.
Proof.
  unfold copy_right_row, push_back_at.
  apply (foldl_alter_lookup
           (fun c col => col ++ [position_at right_lists c j])).
Qed.

Lemma append_pairs_length lt rt pairs pl :
  length (append_pairs lt rt pairs pl) = length pl.
Proof. apply length_imap. Qed.

Lemma append_pairs_nil lt rt pl : append_pairs lt rt [] pl = pl.
Proof.
  apply list_eq. intros k. unfold append_pairs. rewrite list_lookup_imap.
  destruct (pl !! k); simpl; [rewrite app_nil_r|]; reflexivity.
Qed.

Lemma append_pairs_app lt rt ps qs pl :
  append_pairs lt rt (ps ++ qs) pl = append_pairs lt rt qs (append_pairs lt rt ps pl).
Proof.
  apply list_eq. intros k. unfold append_pairs. rewrite !list_lookup_imap.
  destruct (pl !! k); simpl; [|reflexivity].
  rewrite fmap_app, app_assoc. reflexivity.
Qed.

(** Lines 157-170 append one output row. *)
Lemma copy_rows_append lt rt i j pl :
  length pl = length (GetPositionLists lt) + length (GetPositionLists rt) ->
  copy_right_row (length (GetPositionLists lt)) (GetPositionLists rt) j
    (copy_left_row (GetPositionLists lt) i pl)
  = append_pairs lt rt [(i, j)] pl.
Proof.
  intros Hlen. apply list_eq. intros k.
  rewrite copy_right_row_lookup, copy_left_row_lookup.
  unfold append_pairs. rewrite list_lookup_imap. unfold output_cell. simpl.
  destruct (pl !! k) as [col|] eqn:Hk.
  - apply lookup_lt_Some in Hk.
    destruct (decide (k < length (GetPositionLists lt))) as [Hl|Hl].
    + rewrite decide_False by lia. simpl.
      apply Nat.ltb_lt in Hl. rewrite Hl. reflexivity.
    + rewrite decide_True by lia. simpl.
      apply Nat.ltb_nlt in Hl. rewrite Hl. reflexivity.
  - repeat case_decide; reflexivity.
Qed.

(** A loop over [0 .. n - 1] whose body appends the rows of [g x]. *)
Lemma foldl_append_pairs lt rt (g : nat -> list (nat * nat))
    (f : list (list oid_t) -> nat -> list (list oid_t)) (w : nat) :
  (forall pl x, length pl = w -> f pl x = append_pairs lt rt (g x) pl) ->
  forall xs pl, length pl = w ->
  foldl f pl xs = append_pairs lt rt (concat (g <$> xs)) pl.
Proof.
  intros Hf xs. induction xs as [|x xs IH]; intros pl Hlen; simpl.
  - symmetry. apply append_pairs_nil.
  - rewrite append_pairs_app, Hf by assumption.
    apply IH. rewrite append_pairs_length. assumption.
Qed.

(** The pairs kept in the inner loop for left row [i]. *)
Lemma kept_pairs_filter pred lt rt i (js : list nat) :
  concat ((fun j => if skip_pair pred lt rt i j then [] else [(i, j)]) <$> js)
  = List.filter (fun p => negb (skip_pair pred lt rt (fst p) (snd p)))
      (List.map (fun j => (i, j)) js).
Proof.
  induction js as [|j js IH]; csimpl; [reflexivity|].
  rewrite IH. destruct (skip_pair pred lt rt i j); reflexivity.
Qed.

Lemma emitted_pairs_concat pred lt rt (is_ js : list nat) :
  concat ((fun i => concat ((fun j => if skip_pair pred lt rt i j then []
                                      else [(i, j)]) <$> js)) <$> is_)
  = List.filter (fun p => negb (skip_pair pred lt rt (fst p) (snd p)))
      (list_prod is_ js).
Proof.
  induction is_ as [|i is_ IH]; csimpl; [reflexivity|].
  rewrite List.filter_app, IH, kept_pairs_filter. reflexivity.
Qed.

Lemma join_left_row_append pred lt rt n i pl :
  length pl = length (GetPositionLists lt) + length (GetPositionLists rt) ->
  join_left_row pred lt rt n i pl
  = append_pairs lt rt
      (concat ((fun j => if skip_pair pred lt rt i j then [] else [(i, j)])
               <$> seq 0 n)) pl.
Proof.
  intros Hlen. unfold join_left_row.
  apply (foldl_append_pairs lt rt
           (fun j => if skip_pair pred lt rt i j then [] else [(i, j)]) _
           (length (GetPositionLists lt) + length (GetPositionLists rt)));
    [|assumption].
  intros pl' j Hpl'. destruct (skip_pair pred lt rt i j).
  - symmetry. apply append_pairs_nil.
  - apply copy_rows_append. assumption.
Qed.

Lemma append_pairs_replicate lt rt pairs :
  append_pairs lt rt pairs
    (replicate (length (GetPositionLists lt) + length (GetPositionLists rt)) [])
  = columns_of lt rt pairs.
Proof.
  apply list_eq. intros k. unfold append_pairs, columns_of.
  rewrite list_lookup_imap, list_lookup_fmap.
  destruct (decide (k < length (GetPositionLists lt)
                        + length (GetPositionLists rt))) as [Hk|Hk].
  - rewrite lookup_replicate_2 by assumption.
    rewrite lookup_seq_lt by assumption. reflexivity.
  - rewrite (proj1 (lookup_replicate_None _ _ _)) by lia.
    rewrite lookup_seq_ge by lia. reflexivity.
Qed.

(** The position lists computed by lines 114-173 are the rows of the pairs
    that are not skipped, in loop order. *)
Lemma join_position_lists_columns pred lt rt :
  join_position_lists pred lt rt = columns_of lt rt (emitted_pairs pred lt rt).
Proof.
  unfold join_position_lists, emitted_pairs.
  rewrite <- emitted_pairs_concat, <- append_pairs_replicate.
  apply (foldl_append_pairs lt rt
           (fun i => concat ((fun j => if skip_pair pred lt rt i j then []
                                       else [(i, j)])
                             <$> seq 0 (row_count (GetPositionLists rt)))) _
           (length (GetPositionLists lt) + length (GetPositionLists rt))).
  - intros pl i Hpl. apply join_left_row_append. assumption.
  - apply length_replicate.
Qed.

Lemma emitted_pairs_In pred lt rt i j :
  In (i, j) (emitted_pairs pred lt rt)
  <-> i < row_count (GetPositionLists lt)
      /\ j < row_count (GetPositionLists rt)
      /\ skip_pair pred lt rt i j = false.
Proof.
  unfold emitted_pairs. rewrite filter_In, in_prod_iff, !in_seq. simpl.
  rewrite negb_true_iff. intuition lia.
Qed.

Lemma emitted_pairs_NoDup pred lt rt : NoDup (emitted_pairs pred lt rt).
Proof.
  unfold emitted_pairs.
  apply NoDup_ListNoDup, List.NoDup_filter, NoDup_ListNoDup.
  generalize (seq 0 (row_count (GetPositionLists rt)))
             (NoDup_seq 0 (row_count (GetPositionLists rt))).
  generalize (seq 0 (row_count (GetPositionLists lt)))
             (NoDup_seq 0 (row_count (GetPositionLists lt))).
  intros xs Hxs ys Hys. induction Hxs as [|x xs Hx Hxs IH]; simpl.
  - constructor.
  - apply NoDup_app. split; [|split].
    + apply NoDup_fmap_2; [|assumption]. intros a b Hab. congruence.
    + intros [a b] Hin1 Hin2. apply list_elem_of_In in Hin1, Hin2.
      apply in_map_iff in Hin1 as (b' & Heq & _). inversion Heq; subst.
      apply in_prod_iff in Hin2 as [Hin2 _].
      apply Hx, list_elem_of_In. assumption.
    + assumption.
Qed.

(** Without a predicate no pair is skipped. *)
Lemma emitted_pairs_no_predicate lt rt :
  emitted_pairs None lt rt
  = list_prod (seq 0 (row_count (GetPositionLists lt)))
              (seq 0 (row_count (GetPositionLists rt))).
Proof. unfold emitted_pairs. simpl. apply List.filter_true. Qed.

(** Row [i * n + j] of the product of [a ..] and [0 .. n - 1]. *)
Lemma list_prod_seq_lookup (a m n i j : nat) :
  i < m -> j < n ->
  list_prod (seq a m) (seq 0 n) !! (i * n + j) = Some (a + i, j).
Proof.
  revert a i. induction m as [|m IH]; intros a i Hi Hj; [lia|].
  simpl. change (List.map (fun y => (a, y)) (seq 0 n))
    with ((fun y => (a, y)) <$> seq 0 n).
  destruct i as [|i].
  - simpl. rewrite lookup_app_l by (rewrite length_fmap, length_seq; lia).
    rewrite list_lookup_fmap, lookup_seq_lt by assumption.
    simpl. f_equal. f_equal. lia.
  - rewrite lookup_app_r by (rewrite length_fmap, length_seq; simpl; lia).
    rewrite length_fmap, length_seq.
    replace (S i * n + j - n) with (i * n + j) by (simpl; lia).
    rewrite IH by lia. f_equal. f_equal. lia.
Qed.

(** *** One pair of tiles *)

(** C2, as the code has it: with a predicate, the output position lists are
    the rows of the emitted pairs in left-major, right-minor order, no pair
    occurs twice, and a pair of rows (left row i, right row j) is emitted if
    and only if the predicate's value on it is not "false": a pair whose value
    is "unknown" is emitted like one whose value is "true". *)
Theorem join_emits_pairs_not_false (p : AbstractExpression) (lt rt : LogicalTile) :
  join_position_lists (Some p) lt rt
  = columns_of lt rt (emitted_pairs (Some p) lt rt)
  /\ NoDup (emitted_pairs (Some p) lt rt)
  /\ forall i j,
       In (i, j) (emitted_pairs (Some p) lt rt)
       <-> i < row_count (GetPositionLists lt)
           /\ j < row_count (GetPositionLists rt)
           /\ p (mkContainerTuple lt i) (mkContainerTuple rt j) <> ValueFalse.
Proof.
  split; [apply join_position_lists_columns|].
  split; [apply emitted_pairs_NoDup|].
  intros i j. rewrite emitted_pairs_In. simpl.
  destruct (p (mkContainerTuple lt i) (mkContainerTuple rt j)); simpl;
    intuition congruence.
Qed.

(** C2 fails as stated: the predicate's value on the only pair of rows is
    "unknown", not "true", and the pair is in the output tile. *)
Lemma unknown_pair_is_emitted :
  always_unknown (mkContainerTuple left_10 0) (mkContainerTuple right_5 0)
  <> ValueTrue
  /\ In (0, 0) (emitted_pairs (Some always_unknown) left_10 right_5)
  /\ join_tiles (Some always_unknown) left_10 right_5
     = JoinOutput (mkTile [1%N; 2%N] [[10%N]; [5%N]]).
Proof.
  split; [discriminate|]. split; [left; reflexivity|reflexivity].
Qed.

(** The scenario of the spec: left {10, 20}, right {5, 15, 25}, predicate
    left.col0 < right.col0. *)
Example join_scenario :
  join_tiles (Some less_than) left_10_20 right_5_15_25
  = JoinOutput (mkTile [1%N; 2%N] [[10; 10; 20]%N; [15; 25; 25]%N]).
Proof. reflexivity. Qed.

Lemma columns_of_lookup lt rt pairs c :
  c < length (GetPositionLists lt) + length (GetPositionLists rt) ->
  columns_of lt rt pairs !! c = Some (output_cell lt rt c <$> pairs).
Proof.
  intros Hc. unfold columns_of.
  rewrite list_lookup_fmap, lookup_seq_lt by assumption. reflexivity.
Qed.

Lemma position_at_lookup (lists : list (list oid_t)) c col r :
  lists !! c = Some col -> r < length col ->
  Some (position_at lists c r) = col !! r.
Proof.
  intros Hc Hr. unfold position_at. rewrite Hc.
  destruct (lookup_lt_is_Some_2 col r Hr) as [x Hx]. rewrite Hx. reflexivity.
Qed.

Lemma row_count_pos_columns (lists : list (list oid_t)) :
  0 < row_count lists -> 0 < length lists.
Proof.
  unfold row_count. destruct lists; simpl; lia.
Qed.

(** C3: without a predicate, for rectangular tiles with L > 0 and R > 0 rows,
    the join publishes an output tile whose schema is the left schema
    followed by the right schema, with Lc + Rc position lists of L * R rows
    each; row [i * R + j] holds left row [i] in the columns [0 .. Lc - 1] and
    right row [j] in the columns [Lc .. Lc + Rc - 1], so every pair (i, j)
    occurs once, in left-major, right-minor order.  The first advance of a
    join whose children produce these tiles first sets this tile as output
    and returns true. *)
Theorem cartesian_product_complete (lt rt : LogicalTile) :
  rectangular lt -> rectangular rt ->
  0 < row_count (GetPositionLists lt) ->
  0 < row_count (GetPositionLists rt) ->
  exists out,
    join_tiles None lt rt = JoinOutput out
    /\ GetSchema out = GetSchema lt ++ GetSchema rt
    /\ length (GetPositionLists out)
       = length (GetPositionLists lt) + length (GetPositionLists rt)
    /\ Forall (fun col => length col
                 = row_count (GetPositionLists lt) * row_count (GetPositionLists rt))
              (GetPositionLists out)
    /\ (forall i j,
         i < row_count (GetPositionLists lt) ->
         j < row_count (GetPositionLists rt) ->
         (forall c col, GetPositionLists lt !! c = Some col ->
            exists ocol,
              GetPositionLists out !! c = Some ocol
              /\ ocol !! (i * row_count (GetPositionLists rt) + j) = col !! i)
         /\ (forall c col, GetPositionLists rt !! c = Some col ->
            exists ocol,
              GetPositionLists out !! (length (GetPositionLists lt) + c) = Some ocol
              /\ ocol !! (i * row_count (GetPositionLists rt) + j) = col !! j))
    /\ forall hand_over left_rest right_rest,
         exists e',
           DExecute 1 (join_of hand_over None (lt :: left_rest) (rt :: right_rest))
           = Some (Returned true, e')
           /\ output e' = Some out.
Proof.
  intros Hlt Hrt HL HR.
  pose proof (row_count_pos_columns _ HL) as HLc.
  pose proof (row_count_pos_columns _ HR) as HRc.
  set (pairs := list_prod (seq 0 (row_count (GetPositionLists lt)))
                          (seq 0 (row_count (GetPositionLists rt)))).
  assert (Hpl : join_position_lists None lt rt = columns_of lt rt pairs).
  { rewrite join_position_lists_columns, emitted_pairs_no_predicate. reflexivity. }
  assert (Hlen : length pairs
                 = row_count (GetPositionLists lt) * row_count (GetPositionLists rt)).
  { unfold pairs. rewrite length_prod, !length_seq. reflexivity. }
  assert (Hjoin : join_tiles None lt rt
                  = JoinOutput (mkTile (join_schema lt rt) (columns_of lt rt pairs))).
  { unfold join_tiles. rewrite Hpl.
    apply Nat.ltb_lt in HLc, HRc. rewrite HLc, HRc. simpl.
    unfold row_count at 1. rewrite columns_of_lookup by (apply Nat.ltb_lt in HLc; lia).
    rewrite length_fmap, Hlen.
    assert (H0 : (0 <? row_count (GetPositionLists lt)
                         * row_count (GetPositionLists rt)) = true)
      by (apply Nat.ltb_lt; nia).
    rewrite H0. reflexivity. }
  exists (mkTile (join_schema lt rt) (columns_of lt rt pairs)).
  split; [|split; [|split; [|split; [|split]]]].
  - exact Hjoin.
  - reflexivity.
  - simpl. unfold columns_of. rewrite length_fmap, length_seq. reflexivity.
  - simpl. unfold columns_of. apply Forall_fmap, Forall_forall.
    intros c _. simpl. rewrite length_fmap. exact Hlen.
  - intros i j Hi Hj.
    assert (Hrow : pairs !! (i * row_count (GetPositionLists rt) + j) = Some (i, j)).
    { unfold pairs. rewrite list_prod_seq_lookup by assumption. reflexivity. }
    split; intros c col Hc.
    + pose proof (lookup_lt_Some _ _ _ Hc) as Hclt.
      exists (output_cell lt rt c <$> pairs). split.
      * simpl. apply columns_of_lookup. lia.
      * rewrite list_lookup_fmap, Hrow. simpl. unfold output_cell.
        apply Nat.ltb_lt in Hclt. rewrite Hclt. simpl.
        apply position_at_lookup; [assumption|].
        rewrite (Forall_lookup_1 _ _ _ _ Hlt Hc). assumption.
    + pose proof (lookup_lt_Some _ _ _ Hc) as Hclt.
      exists (output_cell lt rt (length (GetPositionLists lt) + c) <$> pairs). split.
      * simpl. apply columns_of_lookup. lia.
      * rewrite list_lookup_fmap, Hrow. simpl. unfold output_cell.
        assert (Hge : (length (GetPositionLists lt) + c
                       <? length (GetPositionLists lt)) = false)
          by (apply Nat.ltb_nlt; lia).
        rewrite Hge. simpl.
        replace (length (GetPositionLists lt) + c - length (GetPositionLists lt))
          with c by lia.
        apply position_at_lookup; [assumption|].
        rewrite (Forall_lookup_1 _ _ _ _ Hrt Hc). assumption.
  - intros hand_over left_rest right_rest.
    unfold join_of. cbn [DExecute]. unfold pull_right, pull_left, take_tiles.
    cbn. unfold source_GetOutput. cbn.
    destruct hand_over; cbn; rewrite Hjoin; eexists; split; reflexivity.
Qed.

(** C3 at the tiles {10, 20} and {5, 15, 25}. *)
Lemma cartesian_product_complete_witness :
  exists out,
    join_tiles None left_10_20 right_5_15_25 = JoinOutput out
    /\ GetSchema out = [1%N; 2%N]
    /\ length (GetPositionLists out) = 2
    /\ Forall (fun col => length col = 6) (GetPositionLists out)
    /\ (forall i j, i < 2 -> j < 3 ->
         (forall c col, GetPositionLists left_10_20 !! c = Some col ->
            exists ocol,
              GetPositionLists out !! c = Some ocol
              /\ ocol !! (i * 3 + j) = col !! i)
         /\ (forall c col, GetPositionLists right_5_15_25 !! c = Some col ->
            exists ocol,
              GetPositionLists out !! (1 + c) = Some ocol
              /\ ocol !! (i * 3 + j) = col !! j))
    /\ forall hand_over left_rest right_rest,
         exists e',
           DExecute 1 (join_of hand_over None (left_10_20 :: left_rest)
                               (right_5_15_25 :: right_rest))
           = Some (Returned true, e')
           /\ output e' = Some out.
Proof.
  apply (cartesian_product_complete left_10_20 right_5_15_25).
  - repeat constructor.
  - repeat constructor.
  - cbv. lia.
  - cbv. lia.
Defined.

Lemma columns_of_nil lt rt :
  columns_of lt rt []
  = replicate (length (GetPositionLists lt) + length (GetPositionLists rt)) [].
Proof.
  rewrite <- append_pairs_replicate. apply append_pairs_nil.
Qed.

Lemma emitted_pairs_no_rows pred lt rt :
  row_count (GetPositionLists lt) = 0 \/ row_count (GetPositionLists rt) = 0 ->
  emitted_pairs pred lt rt = [].
Proof.
  intros Hz. unfold emitted_pairs.
  assert (Hnil : list_prod (seq 0 (row_count (GetPositionLists lt)))
                           (seq 0 (row_count (GetPositionLists rt))) = []).
  { apply length_zero_iff_nil. rewrite length_prod, !length_seq. nia. }
  rewrite Hnil. reflexivity.
Qed.

(** *** One activation of DExecute, for any children *)

Section AnyChildren.
Context {L R : Type} `{AbstractExecutor L} `{AbstractExecutor R}.

(** Line 71: the right child gives no tile even after its restart. *)
Lemma DExecute_right_exhausted (e : NestedLoopJoinExecutor L R) (d : nat) :
  fst (Execute (children_1 e)) = false ->
  fst (Execute (snd (Init (snd (Execute (children_1 e)))))) = false ->
  exists e', DExecute (S d) e = Some (Returned false, e').
Proof.
  intros H1 H2. simpl. unfold pull_right.
  destruct (Execute (children_1 e)) as [got r1]. simpl in *. subst got. simpl.
  destruct (Init r1) as [b r2]. simpl in *.
  destruct (Execute r2) as [again r3]. simpl in *. subst again.
  eexists. reflexivity.
Qed.

(** Line 82: the left child gives no tile when it is advanced. *)
Lemma DExecute_left_exhausted (e e1 : NestedLoopJoinExecutor L R)
    (right_scan_end : bool) (d : nat) :
  pull_right e = (Some right_scan_end, e1) ->
  left_scan_start e1 || right_scan_end = true ->
  fst (Execute (children_0 e1)) = false ->
  exists e', DExecute (S d) e = Some (Returned false, e').
Proof.
  intros Hr Hpull Hl. simpl. rewrite Hr. unfold pull_left. rewrite Hpull.
  destruct (Execute (children_0 e1)) as [got l1]. simpl in Hl. subst got.
  eexists. reflexivity.
Qed.

End AnyChildren.

Lemma join_tiles_no_rows pred lt rt :
  0 < length (GetPositionLists lt) ->
  0 < length (GetPositionLists rt) ->
  row_count (GetPositionLists lt) = 0 \/ row_count (GetPositionLists rt) = 0 ->
  emitted_pairs pred lt rt = []
  /\ join_position_lists pred lt rt
     = replicate (length (GetPositionLists lt) + length (GetPositionLists rt)) []
  /\ join_tiles pred lt rt = JoinEmpty.
Proof.
  intros HLc HRc Hz.
  pose proof (emitted_pairs_no_rows pred lt rt Hz) as Hnil.
  assert (Hpl : join_position_lists pred lt rt
                = replicate (length (GetPositionLists lt)
                             + length (GetPositionLists rt)) []).
  { rewrite join_position_lists_columns, Hnil. apply columns_of_nil. }
  split; [assumption|]. split; [assumption|].
  unfold join_tiles. rewrite Hpl.
  apply Nat.ltb_lt in HLc, HRc. rewrite HLc, HRc. simpl.
  unfold row_count. rewrite lookup_replicate_2 by (apply Nat.ltb_lt in HLc; lia).
  reflexivity.
Qed.

Lemma join_tiles_no_columns pred lt rt :
  length (GetPositionLists lt) = 0 \/ length (GetPositionLists rt) = 0 ->
  join_tiles pred lt rt = JoinAssertionFailed.
Proof.
  intros [Hz|Hz]; unfold join_tiles; rewrite Hz; simpl.
  - reflexivity.
  - rewrite andb_false_r. reflexivity.
Qed.

Section Exhaustion.
Context {L R : Type} `{AbstractExecutor L} `{AbstractExecutor R}.

(** Exhaustion met by the [n]-th nested activation ends the whole call with a
    boolean: false when the first activation meets it, true (lines 187-190)
    when a nested one does. *)
Lemma DExecute_exhaustion_is_a_boolean (n : nat) :
  forall (e e0 e' : NestedLoopJoinExecutor L R) (d : nat),
    nested_activation n e = Some e0 ->
    exhausted_state e0 = Some e' ->
    DExecute (S n + d) e = Some (Returned (0 <? n), e').
Proof.
  induction n as [|n IH]; intros e e0 e' d.
  - simpl. intros Heq. inversion Heq; subst. unfold exhausted_state.
    destruct (pull_right e0) as [[right_scan_end|] e1].
    + destruct (pull_left right_scan_end e1) as [[|] e2]; [discriminate|].
      intros Heq'. inversion Heq'; subst. reflexivity.
    + intros Heq'. inversion Heq'; subst. reflexivity.
  - cbn [nested_activation]. unfold retry_state.
    change (S (S n) + d) with (S (S n + d)). cbn [DExecute].
    destruct (pull_right e) as [[right_scan_end|] e1]; [|discriminate].
    destruct (pull_left right_scan_end e1) as [[|] e2]; [|discriminate].
    destruct (take_tiles e2) as [[[left_tile right_tile]|] e3]; [|discriminate].
    destruct (join_tiles (predicate_ e3) left_tile right_tile); try discriminate.
    intros Hn Hx. rewrite (IH e3 e0 e' d Hn Hx). reflexivity.
Qed.

(** DExecute returns false only when its first activation meets an exhausted
    child. *)
Lemma DExecute_false_is_exhaustion (depth : nat)
    (e e' : NestedLoopJoinExecutor L R) :
  DExecute depth e = Some (Returned false, e') ->
  exhausted_state e = Some e'.
Proof.
  destruct depth as [|depth]; [discriminate|]. simpl. unfold exhausted_state.
  destruct (pull_right e) as [[right_scan_end|] e1].
  - destruct (pull_left right_scan_end e1) as [[|] e2].
    + destruct (take_tiles e2) as [[[left_tile right_tile]|] e3]; [|discriminate].
      destruct (join_tiles (predicate_ e3) left_tile right_tile); try discriminate.
      destruct (DExecute depth e3) as [[[b|] e4]|]; discriminate.
    + intros Heq. inversion Heq; subst. reflexivity.
  - intros Heq. inversion Heq; subst. reflexivity.
Qed.

(** A failed assertion is one of the assertions on the tiles (lines 94-95,
    122-123), in a nested activation that has pulled a right tile and has, or
    has just pulled, a left tile: never the report of an exhausted child. *)
Lemma DExecute_assertion_origin (depth : nat) :
  forall (e e' : NestedLoopJoinExecutor L R),
    DExecute depth e = Some (AssertionFailed, e') ->
    exists (n : nat) (e0 e1 e2 : NestedLoopJoinExecutor L R)
           (right_scan_end : bool),
      n < depth
      /\ nested_activation n e = Some e0
      /\ exhausted_state e0 = None
      /\ pull_right e0 = (Some right_scan_end, e1)
      /\ pull_left right_scan_end e1 = (true, e2)
      /\ (take_tiles e2 = (None, e')
          \/ exists lt rt,
               take_tiles e2 = (Some (lt, rt), e')
               /\ join_tiles (predicate_ e') lt rt = JoinAssertionFailed).
Proof.
  induction depth as [|depth IH]; intros e e'; [discriminate|]. simpl.
  destruct (pull_right e) as [r e1] eqn:Hr.
  destruct r as [right_scan_end|]; [|discriminate].
  destruct (pull_left right_scan_end e1) as [ok e2] eqn:Hl.
  destruct ok; [|discriminate].
  assert (Hx : exhausted_state e = None)
    by (unfold exhausted_state; rewrite Hr, Hl; reflexivity).
  destruct (take_tiles e2) as [tiles3 e3] eqn:Ht.
  destruct tiles3 as [[left_tile right_tile]|].
  - destruct (join_tiles (predicate_ e3) left_tile right_tile) eqn:Hj.
    + intros Heq. inversion Heq; subst.
      exists 0, e, e1, e2, right_scan_end.
      split; [lia|]. split; [reflexivity|]. split; [assumption|].
      split; [assumption|]. split; [assumption|].
      right. exists left_tile, right_tile. auto.
    + destruct (DExecute depth e3) as [[o4 e4]|] eqn:Hrec; [|discriminate].
      destruct o4; intros Heq; inversion Heq; subst.
      destruct (IH e3 e' Hrec) as (n & e0 & e1' & e2' & rse' & Hn & Hnest & Hrest).
      exists (S n), e0, e1', e2', rse'. split; [lia|]. split; [|exact Hrest].
      cbn [nested_activation]. unfold retry_state. rewrite Hr, Hl, Ht, Hj.
      exact Hnest.
    + discriminate.
  - intros Heq. inversion Heq; subst.
    exists 0, e, e1, e2, right_scan_end.
    split; [lia|]. split; [reflexivity|]. split; [assumption|]. auto.
Qed.

(** An activation whose tiles both have columns and of which one has no
    rows publishes nothing and calls itself (line 187). *)
Lemma DExecute_no_rows_retries (e e1 e2 e3 : NestedLoopJoinExecutor L R)
    (right_scan_end : bool) (lt rt : LogicalTile) :
  pull_right e = (Some right_scan_end, e1) ->
  pull_left right_scan_end e1 = (true, e2) ->
  take_tiles e2 = (Some (lt, rt), e3) ->
  0 < length (GetPositionLists lt) ->
  0 < length (GetPositionLists rt) ->
  row_count (GetPositionLists lt) = 0 \/ row_count (GetPositionLists rt) = 0 ->
  retry_state e = Some e3
  /\ output e3 = output e
  /\ forall d,
       DExecute (S d) e
       = match DExecute d e3 with
         | None => None
         | Some (AssertionFailed, e4) => Some (AssertionFailed, e4)
         | Some (Returned _, e4) => Some (Returned true, e4)
         end.
Proof.
  intros Hr Hl Ht HLc HRc Hz.
  destruct (join_tiles_no_rows (predicate_ e3) lt rt HLc HRc Hz) as (_ & _ & Hj).
  split; [unfold retry_state; rewrite Hr, Hl, Ht, Hj; reflexivity|].
  split.
  - assert (Ho1 : output e1 = output e).
    { revert Hr. unfold pull_right.
      destruct (Execute (children_1 e)) as [got r1]. destruct got; simpl.
      - intros Heq. inversion Heq. reflexivity.
      - destruct (Init r1) as [b r2]. destruct (Execute r2) as [again r3].
        destruct again; intros Heq; inversion Heq. reflexivity. }
    assert (Ho2 : output e2 = output e1).
    { revert Hl. unfold pull_left.
      destruct (left_scan_start e1 || right_scan_end).
      - destruct (Execute (children_0 e1)) as [got l1].
        intros Heq. inversion Heq. reflexivity.
      - intros Heq. inversion Heq. reflexivity. }
    assert (Ho3 : output e3 = output e2).
    { revert Ht. unfold take_tiles.
      destruct (GetOutput (children_0 e2)) as [a l1].
      destruct (GetOutput (children_1 e2)) as [b r1].
      destruct a, b; intros Heq; inversion Heq. reflexivity. }
    congruence.
  - intros d. cbn [DExecute]. rewrite Hr, Hl, Ht, Hj. reflexivity.
Qed.

(** A tile without columns met by the [n]-th nested activation fails the
    assertion of lines 122-123 and aborts the whole call. *)
Lemma DExecute_no_columns_aborts (n : nat) :
  forall (e e0 e1 e2 e' : NestedLoopJoinExecutor L R) (right_scan_end : bool)
         (lt rt : LogicalTile) (d : nat),
    nested_activation n e = Some e0 ->
    pull_right e0 = (Some right_scan_end, e1) ->
    pull_left right_scan_end e1 = (true, e2) ->
    take_tiles e2 = (Some (lt, rt), e') ->
    length (GetPositionLists lt) = 0 \/ length (GetPositionLists rt) = 0 ->
    DExecute (S n + d) e = Some (AssertionFailed, e').
Proof.
  induction n as [|n IH]; intros e e0 e1 e2 e' rse lt rt d.
  - simpl. intros Heq Hr Hl Ht Hz. inversion Heq; subst.
    rewrite Hr, Hl, Ht, (join_tiles_no_columns _ _ _ Hz). reflexivity.
  - cbn [nested_activation]. unfold retry_state.
    change (S (S n) + d) with (S (S n + d)). cbn [DExecute].
    destruct (pull_right e) as [[rse0|] e1']; [|discriminate].
    destruct (pull_left rse0 e1') as [[|] e2']; [|discriminate].
    destruct (take_tiles e2') as [[[lt0 rt0]|] e3]; [|discriminate].
    destruct (join_tiles (predicate_ e3) lt0 rt0); try discriminate.
    intros Hn Hr Hl Ht Hz.
    rewrite (IH e3 e0 e1 e2 e' rse lt rt d Hn Hr Hl Ht Hz). reflexivity.
Qed.

End Exhaustion.

(** C6, as the code has it: a pair of tiles that both have at least one
    column and of which one has no rows contributes no pair and fails no
    assertion: the activation of DExecute that meets it publishes nothing and
    goes on to the retry of line 187.  A tile without columns fails the
    assertion on the column counts (lines 122-123), and that aborts the whole
    call from whatever nested activation.  Exhaustion of a child is the only
    termination signal and is surfaced as a boolean, never as a failure:
    exhaustion met by the first activation, of the right child even after its
    restart or of the left child when it is advanced, makes DExecute return
    false; exhaustion met by an activation nested at any depth n ends the
    whole call with a boolean (false for n = 0, true for n > 0); DExecute
    returns false only when its first activation meets exhaustion; and a call
    that fails an assertion fails one of the assertions on the tiles, in an
    activation in which both pulls gave a tile. *)
Theorem empty_tiles_and_exhaustion :
  (forall pred lt rt,
     0 < length (GetPositionLists lt) ->
     0 < length (GetPositionLists rt) ->
     row_count (GetPositionLists lt) = 0 \/ row_count (GetPositionLists rt) = 0 ->
     emitted_pairs pred lt rt = []
     /\ join_position_lists pred lt rt
        = replicate (length (GetPositionLists lt) + length (GetPositionLists rt)) []
     /\ join_tiles pred lt rt = JoinEmpty)
  /\ (forall pred lt rt,
        length (GetPositionLists lt) = 0 \/ length (GetPositionLists rt) = 0 ->
        join_tiles pred lt rt = JoinAssertionFailed)
  /\ (forall (L R : Type) (HL : AbstractExecutor L) (HR : AbstractExecutor R)
             (e : NestedLoopJoinExecutor L R) (d : nat),
        fst (Execute (children_1 e)) = false ->
        fst (Execute (snd (Init (snd (Execute (children_1 e)))))) = false ->
        exists e', DExecute (S d) e = Some (Returned false, e'))
  /\ (forall (L R : Type) (HL : AbstractExecutor L) (HR : AbstractExecutor R)
             (e e1 : NestedLoopJoinExecutor L R) (right_scan_end : bool) (d : nat),
        pull_right e = (Some right_scan_end, e1) ->
        left_scan_start e1 || right_scan_end = true ->
        fst (Execute (children_0 e1)) = false ->
        exists e', DExecute (S d) e = Some (Returned false, e'))
  /\ (forall (L R : Type) (HL : AbstractExecutor L) (HR : AbstractExecutor R)
             (e e0 e' : NestedLoopJoinExecutor L R) (n d : nat),
        nested_activation n e = Some e0 ->
        exhausted_state e0 = Some e' ->
        DExecute (S n + d) e = Some (Returned (0 <? n), e'))
  /\ (forall (L R : Type) (HL : AbstractExecutor L) (HR : AbstractExecutor R)
             (e e' : NestedLoopJoinExecutor L R) (depth : nat),
        DExecute depth e = Some (Returned false, e') ->
        exhausted_state e = Some e')
  /\ (forall (L R : Type) (HL : AbstractExecutor L) (HR : AbstractExecutor R)
             (e e' : NestedLoopJoinExecutor L R) (depth : nat),
        DExecute depth e = Some (AssertionFailed, e') ->
        exists (n : nat) (e0 e1 e2 : NestedLoopJoinExecutor L R)
               (right_scan_end : bool),
          n < depth
          /\ nested_activation n e = Some e0
          /\ exhausted_state e0 = None
          /\ pull_right e0 = (Some right_scan_end, e1)
          /\ pull_left right_scan_end e1 = (true, e2)
          /\ (take_tiles e2 = (None, e')
              \/ exists lt rt,
                   take_tiles e2 = (Some (lt, rt), e')
                   /\ join_tiles (predicate_ e') lt rt = JoinAssertionFailed))
  /\ (forall (L R : Type) (HL : AbstractExecutor L) (HR : AbstractExecutor R)
             (e e1 e2 e3 : NestedLoopJoinExecutor L R) (right_scan_end : bool)
             (lt rt : LogicalTile),
        pull_right e = (Some right_scan_end, e1) ->
        pull_left right_scan_end e1 = (true, e2) ->
        take_tiles e2 = (Some (lt, rt), e3) ->
        0 < length (GetPositionLists lt) ->
        0 < length (GetPositionLists rt) ->
        row_count (GetPositionLists lt) = 0 \/ row_count (GetPositionLists rt) = 0 ->
        retry_state e = Some e3
        /\ output e3 = output e
        /\ forall d,
             DExecute (S d) e
             = match DExecute d e3 with
               | None => None
               | Some (AssertionFailed, e4) => Some (AssertionFailed, e4)
               | Some (Returned _, e4) => Some (Returned true, e4)
               end)
  /\ (forall (L R : Type) (HL : AbstractExecutor L) (HR : AbstractExecutor R)
             (e e0 e1 e2 e' : NestedLoopJoinExecutor L R) (right_scan_end : bool)
             (lt rt : LogicalTile) (n d : nat),
        nested_activation n e = Some e0 ->
        pull_right e0 = (Some right_scan_end, e1) ->
        pull_left right_scan_end e1 = (true, e2) ->
        take_tiles e2 = (Some (lt, rt), e') ->
        length (GetPositionLists lt) = 0 \/ length (GetPositionLists rt) = 0 ->
        DExecute (S n + d) e = Some (AssertionFailed, e')).
Proof.
  split; [|split; [|split; [|split; [|split; [|split; [|split; [|split]]]]]]].
  - apply join_tiles_no_rows.
  - apply join_tiles_no_columns.
  - intros L R HL HR e d. apply DExecute_right_exhausted.
  - intros L R HL HR e e1 rse d. apply DExecute_left_exhausted.
  - intros L R HL HR e e0 e' n d. apply DExecute_exhaustion_is_a_boolean.
  - intros L R HL HR e e' depth. apply DExecute_false_is_exhaustion.
  - intros L R HL HR e e' depth. apply DExecute_assertion_origin.
  - intros L R HL HR e e1 e2 e3 rse lt rt. apply DExecute_no_rows_retries.
  - intros L R HL HR e e0 e1 e2 e' rse lt rt n d.
    apply DExecute_no_columns_aborts.
Qed.

(** C6 fails as stated: a left tile without columns fails the assertion of
    line 122, in the join of the tiles and in the first advance of a join
    whose left child produces that tile. *)
Lemma zero_column_tile_fails_assertion :
  join_tiles None left_no_columns right_5 = JoinAssertionFailed
  /\ exists e',
       DExecute 1 (join_of false None [left_no_columns] [right_5])
       = Some (AssertionFailed, e').
Proof.
  split; [reflexivity|]. eexists. reflexivity.
Qed.

(** C6 at a left tile without rows, at a left tile without columns, at a
    join without right tiles, at a join without left tiles, at the call that
    retries over a left tile without rows and then meets the exhausted left
    child in its nested activation, and at the calls that fail the assertion
    on a left tile without columns, met first and met after a retry. *)
Lemma empty_tiles_and_exhaustion_witness :
  (emitted_pairs (Some less_than) left_no_rows right_5 = []
   /\ join_position_lists (Some less_than) left_no_rows right_5 = [[]; []]
   /\ join_tiles (Some less_than) left_no_rows right_5 = JoinEmpty)
  /\ join_tiles None left_no_columns right_5 = JoinAssertionFailed
  /\ (exists e', DExecute 1 (join_of false None [left_10] []) = Some (Returned false, e'))
  /\ (exists e', DExecute 1 (join_of false None [] [right_5]) = Some (Returned false, e'))
  /\ (exists e0 e',
        nested_activation 1 (join_of false None [left_no_rows] [right_5]) = Some e0
        /\ exhausted_state e0 = Some e'
        /\ DExecute 2 (join_of false None [left_no_rows] [right_5])
           = Some (Returned true, e'))
  /\ (exists e',
        DExecute 1 (join_of false None [] [right_5]) = Some (Returned false, e')
        /\ exhausted_state (join_of false None [] [right_5]) = Some e')
  /\ (exists e',
        DExecute 1 (join_of false None [left_no_columns] [right_5])
        = Some (AssertionFailed, e')
        /\ exists (n : nat) (e0 e1 e2 : NestedLoopJoinExecutor TileSource TileSource)
                  (right_scan_end : bool),
             n < 1
             /\ nested_activation n (join_of false None [left_no_columns] [right_5])
                = Some e0
             /\ exhausted_state e0 = None
             /\ pull_right e0 = (Some right_scan_end, e1)
             /\ pull_left right_scan_end e1 = (true, e2)
             /\ (take_tiles e2 = (None, e')
                 \/ exists lt rt,
                      take_tiles e2 = (Some (lt, rt), e')
                      /\ join_tiles (predicate_ e') lt rt = JoinAssertionFailed))
  /\ (exists e3,
        retry_state (join_of false None [left_no_rows] [right_5]) = Some e3
        /\ output e3 = None
        /\ forall d,
             DExecute (S d) (join_of false None [left_no_rows] [right_5])
             = match DExecute d e3 with
               | None => None
               | Some (AssertionFailed, e4) => Some (AssertionFailed, e4)
               | Some (Returned _, e4) => Some (Returned true, e4)
               end)
  /\ (exists e',
        DExecute 2 (join_of false None [left_no_rows; left_no_columns] [right_5])
        = Some (AssertionFailed, e')).
Proof.
  destruct empty_tiles_and_exhaustion
    as (Hrows & Hcols & Hright & Hleft & Hbool & Honly & Hassert & Hretry & Habort).
  split; [|split; [|split; [|split; [|split; [|split; [|split; [|split]]]]]]].
  - apply (Hrows (Some less_than) left_no_rows right_5);
      [cbv; lia | cbv; lia | left; reflexivity].
  - apply (Hcols None left_no_columns right_5). left. reflexivity.
  - apply (Hright _ _ _ _ (join_of false None [left_10] []) 0); reflexivity.
  - apply (Hleft _ _ _ _ (join_of false None [] [right_5])
                 (snd (pull_right (join_of false None [] [right_5]))) false 0);
      reflexivity.
  - do 2 eexists. split; [cbv; reflexivity|]. split; [cbv; reflexivity|].
    refine (Hbool _ _ _ _ (join_of false None [left_no_rows] [right_5]) _ _ 1 0 _ _);
      cbv; reflexivity.
  - eexists. split; [cbv; reflexivity|].
    refine (Honly _ _ _ _ (join_of false None [] [right_5]) _ 1 _).
    cbv. reflexivity.
  - eexists. split; [cbv; reflexivity|].
    refine (Hassert _ _ _ _ (join_of false None [left_no_columns] [right_5]) _ 1 _).
    cbv. reflexivity.
  - eexists.
    refine (Hretry _ _ _ _ (join_of false None [left_no_rows] [right_5])
                   _ _ _ false left_no_rows right_5 _ _ _ _ _ _);
      [cbv; reflexivity | cbv; reflexivity | cbv; reflexivity
       | cbv; lia | cbv; lia | left; reflexivity].
  - eexists.
    refine (Habort _ _ _ _
              (join_of false None [left_no_rows; left_no_columns] [right_5])
              _ _ _ _ true left_no_columns right_5 1 0 _ _ _ _ _);
      [cbv; reflexivity | cbv; reflexivity | cbv; reflexivity
       | cbv; reflexivity | left; reflexivity].
Defined.

(** *** The retry of line 187 *)

(** C1 at its failing input: one left tile {10}, one right tile {5}, predicate
    left.col0 < right.col0, which holds of no pair.  The first call of
    DExecute finds no match and calls itself; the nested call returns false
    at line 82 since the left child is exhausted; line 187 drops that value
    and line 190 returns true, although SetOutput was never called.  Two
    nested activations are needed for it.  The parent's next call returns
    false. *)
Theorem retry_returns_true_without_output (hand_over : bool) :
  let e := join_of hand_over (Some less_than) [left_10] [right_5] in
  DExecute 1 e = None
  /\ exists e1 e2,
       DExecute 2 e = Some (Returned true, e1)
       /\ output e1 = None
       /\ emitted_pairs (Some less_than) left_10 right_5 = []
       /\ advances 2 2 e = Some ([Returned true; Returned false], e2).
Proof.
  destruct hand_over; (split; [vm_compute; reflexivity|]);
    do 2 eexists; (split; [cbv; reflexivity|]);
    (split; [reflexivity|]); (split; [reflexivity|]); cbv; reflexivity.
Qed.

Lemma spinning_first :
  DExecute 3 (join_of false (Some always_false) [left_10] [right_5; right_6])
  = Some (Returned true,
          spinning [LeftExecute false; RightExecute true; RightInit;
                    RightExecute false; RightExecute true;
                    LeftExecute true; RightExecute true]).
Proof. reflexivity. Qed.

Lemma spinning_next (history : list ChildCall) :
  DExecute 3 (spinning history)
  = Some (Returned true,
          spinning (LeftExecute false :: RightExecute true :: RightInit
                    :: RightExecute false :: RightExecute true :: history)).
Proof. reflexivity. Qed.

Lemma spinning_forever (n : nat) : forall history,
  exists history',
    advances 3 n (spinning history)
    = Some (repeat (Returned true) n, spinning history').
Proof.
  induction n as [|n IH]; intros history.
  - exists history. reflexivity.
  - destruct (IH (LeftExecute false :: RightExecute true :: RightInit
                  :: RightExecute false :: RightExecute true :: history))
      as [history' Hn].
    exists history'.
    change (advances 3 (S n) (spinning history))
      with (match DExecute 3 (spinning history) with
            | None => None
            | Some (AssertionFailed, e1) => Some ([AssertionFailed], e1)
            | Some (Returned b, e1) =>
              match advances 3 n e1 with
              | None => None
              | Some (outcomes, e2) => Some (Returned b :: outcomes, e2)
              end
            end).
    rewrite spinning_next, Hn. reflexivity.
Qed.

(** C4 at its failing input: one left tile {10}, two right tiles {5}, {6}, a
    predicate that is false of every pair.  Both children are exhausted
    during the first call, whose innermost activation returns false; the
    value is dropped at line 187 and the call returns true.  Every later call
    pairs {10} with {6} again, retries, and returns true in the same way: the
    parent is never told that the join is finished.  With children that
    return null from a second GetOutput, the first call already fails the
    assertion of line 94. *)
Theorem always_false_join_never_reports_exhaustion :
  (forall n, exists e',
     advances 3 n (join_of false (Some always_false) [left_10] [right_5; right_6])
     = Some (repeat (Returned true) n, e')
     /\ output e' = None)
  /\ exists e',
       DExecute 3 (join_of true (Some always_false) [left_10] [right_5; right_6])
       = Some (AssertionFailed, e').
Proof.
  split.
  - intros [|n].
    + eexists. split; reflexivity.
    + destruct (spinning_forever n
                  [LeftExecute false; RightExecute true; RightInit;
                   RightExecute false; RightExecute true;
                   LeftExecute true; RightExecute true]) as [history' Hn].
      exists (spinning history').
      change (advances 3 (S n)
                (join_of false (Some always_false) [left_10] [right_5; right_6]))
        with (match DExecute 3 (join_of false (Some always_false) [left_10]
                                        [right_5; right_6]) with
              | None => None
              | Some (AssertionFailed, e1) => Some ([AssertionFailed], e1)
              | Some (Returned b, e1) =>
                match advances 3 n e1 with
                | None => None
                | Some (outcomes, e2) => Some (Returned b :: outcomes, e2)
                end
              end).
      rewrite spinning_first, Hn. split; reflexivity.
  - eexists. reflexivity.
Qed.

Lemma retrying_step hand_over total n lc rc out history (d : nat) :
  DExecute (S d) (retrying hand_over total (S n) lc rc out history)
  = match DExecute d (retrying hand_over total n
                        (if hand_over then None else Some left_10)
                        (if hand_over then None else Some right_5) out
                        (LeftExecute true :: RightExecute true :: RightInit
                         :: RightExecute false :: history)) with
    | None => None
    | Some (AssertionFailed, e4) => Some (AssertionFailed, e4)
    | Some (Returned _, e4) => Some (Returned true, e4)
    end.
Proof. destruct hand_over; reflexivity. Qed.

Lemma retrying_depth hand_over total (n : nat) :
  forall lc rc out history,
    DExecute n (retrying hand_over total n lc rc out history) = None
    /\ exists e',
         DExecute (S n) (retrying hand_over total n lc rc out history)
         = Some (Returned (negb (n =? 0)), e').
Proof.
  induction n as [|n IH]; intros lc rc out history.
  - split; [reflexivity|]. eexists. reflexivity.
  - rewrite !retrying_step.
    destruct (IH (if hand_over then None else Some left_10)
                 (if hand_over then None else Some right_5) out
                 (LeftExecute true :: RightExecute true :: RightInit
                  :: RightExecute false :: history)) as [Hnone [e' Hsome]].
    rewrite Hnone, Hsome. split; [reflexivity|]. eexists. reflexivity.
Qed.

Lemma fresh_retrying_step hand_over n (d : nat) :
  DExecute (S d) (join_of hand_over (Some always_false)
                          (replicate (S n) left_10) [right_5])
  = match DExecute d (retrying hand_over (S n) n
                        (if hand_over then None else Some left_10)
                        (if hand_over then None else Some right_5) None
                        [LeftExecute true; RightExecute true]) with
    | None => None
    | Some (AssertionFailed, e4) => Some (AssertionFailed, e4)
    | Some (Returned _, e4) => Some (Returned true, e4)
    end.
Proof. destruct hand_over; reflexivity. Qed.



(** *** The calls on the children *)

Lemma pace_run_app p (a b : list ChildCall) :
  pace_run p (a ++ b)
  = match pace_run p a with Some q => pace_run q b | None => None end.
Proof.
  revert p. induction a as [|c a IH]; intros p; simpl; [reflexivity|].
  destruct (pace_step p c); [apply IH | reflexivity].
Qed.

Lemma pace_run_snoc p (h : list ChildCall) (c : ChildCall) q :
  pace_run p h = Some q -> pace_run p (h ++ [c]) = pace_step q c.
Proof.
  intros Hq. rewrite pace_run_app, Hq. simpl.
  destruct (pace_step q c); reflexivity.
Qed.

Lemma pace_run_snoc_inv p (h : list ChildCall) (c : ChildCall) q :
  pace_run p (h ++ [c]) = Some q ->
  exists q0, pace_run p h = Some q0 /\ pace_step q0 c = Some q.
Proof.
  rewrite pace_run_app. destruct (pace_run p h) as [q0|]; [|discriminate].
  simpl. destruct (pace_step q0 c) as [q1|] eqn:Hstep; [|discriminate].
  intros Heq. exists q0. split; [reflexivity|]. congruence.
Qed.

Lemma left_advances_app (a b : list ChildCall) :
  left_advances (a ++ b) = left_advances a + left_advances b.
Proof.
  induction a as [|c a IH]; simpl; [reflexivity|].
  destruct c; simpl; rewrite IH; reflexivity.
Qed.

Section Pacing.
Context {L R : Type} `{AbstractExecutor L} `{AbstractExecutor R}.

Lemma pull_right_pace (e e1 : NestedLoopJoinExecutor L R) (r : option bool) :
  paced (left_scan_start e) (calls e) ->
  pull_right e = (r, e1) ->
  left_scan_start e1 = left_scan_start e
  /\ pace_run (Ready true) (rev (calls e1))
     = Some match r with
            | None => Ready (left_scan_start e)
            | Some right_scan_end =>
              if left_scan_start e || right_scan_end then LeftDue
              else Ready false
            end.
Proof.
  unfold paced, pull_right. intros Hp.
  destruct (Execute (children_1 e)) as [got r1].
  destruct got; simpl.
  - intros Heq. inversion Heq; subst; simpl. split; [reflexivity|].
    rewrite (pace_run_snoc _ _ _ _ Hp). simpl.
    rewrite orb_false_r. destruct (left_scan_start e); reflexivity.
  - destruct (Init r1) as [b r2]. destruct (Execute r2) as [again r3].
    destruct again; intros Heq; inversion Heq; subst; simpl;
      (split; [reflexivity|]);
      rewrite <- !app_assoc; simpl;
      rewrite pace_run_app, Hp; simpl;
      [rewrite orb_true_r|]; reflexivity.
Qed.

Lemma pull_left_pace (e1 e2 : NestedLoopJoinExecutor L R)
    (start right_scan_end ok : bool) :
  left_scan_start e1 = start ->
  pace_run (Ready true) (rev (calls e1))
  = Some (if start || right_scan_end then LeftDue else Ready false) ->
  pull_left right_scan_end e1 = (ok, e2) ->
  paced (left_scan_start e2) (calls e2).
Proof.
  unfold paced, pull_left. intros Hs Hp. rewrite Hs.
  destruct (start || right_scan_end) eqn:Hor.
  - destruct (Execute (children_0 e1)) as [got l1].
    intros Heq. inversion Heq; subst; simpl.
    rewrite (pace_run_snoc _ _ _ _ Hp). reflexivity.
  - intros Heq. inversion Heq; subst.
    apply orb_false_elim in Hor as [Hs _]. rewrite Hs. assumption.
Qed.

Lemma take_tiles_pace (e2 e3 : NestedLoopJoinExecutor L R)
    (r : option (LogicalTile * LogicalTile)) :
  take_tiles e2 = (r, e3) ->
  left_scan_start e3 = left_scan_start e2 /\ calls e3 = calls e2.
Proof.
  unfold take_tiles.
  destruct (GetOutput (children_0 e2)) as [lt l1].
  destruct (GetOutput (children_1 e2)) as [rt r1].
  destruct lt, rt; intros Heq; inversion Heq; subst; split; reflexivity.
Qed.

(** The discipline is kept by every call of DExecute, whatever the children
    do and however deep the retries nest. *)
Lemma DExecute_paced (depth : nat) :
  forall (e e' : NestedLoopJoinExecutor L R) (o : Outcome),
    paced (left_scan_start e) (calls e) ->
    DExecute depth e = Some (o, e') ->
    paced (left_scan_start e') (calls e').
Proof.
  induction depth as [|depth IH]; intros e e' o Hp; simpl; [discriminate|].
  destruct (pull_right e) as [r e1] eqn:Hr.
  destruct (pull_right_pace e e1 r Hp Hr) as [Hs1 Hp1].
  destruct r as [right_scan_end|].
  - destruct (pull_left right_scan_end e1) as [ok e2] eqn:Hl.
    pose proof (pull_left_pace e1 e2 _ _ _ Hs1 Hp1 Hl) as Hp2.
    destruct ok.
    + destruct (take_tiles e2) as [tiles3 e3] eqn:Ht.
      destruct (take_tiles_pace e2 e3 _ Ht) as [Hs3 Hc3].
      assert (Hp3 : paced (left_scan_start e3) (calls e3))
        by (rewrite Hs3, Hc3; assumption).
      destruct tiles3 as [[left_tile right_tile]|].
      * destruct (join_tiles (predicate_ e3) left_tile right_tile).
        -- intros Heq. inversion Heq; subst. assumption.
        -- destruct (DExecute depth e3) as [[o4 e4]|] eqn:Hrec; [|discriminate].
           pose proof (IH e3 e4 o4 Hp3 Hrec) as Hp4.
           destruct o4; intros Heq; inversion Heq; subst; assumption.
        -- intros Heq. inversion Heq; subst. assumption.
      * intros Heq. inversion Heq; subst. assumption.
    + intros Heq. inversion Heq; subst. assumption.
  - intros Heq. inversion Heq; subst. unfold paced. rewrite Hs1. assumption.
Qed.

Lemma advances_paced (depth n : nat) :
  forall (e e' : NestedLoopJoinExecutor L R) (outcomes : list Outcome),
    paced (left_scan_start e) (calls e) ->
    advances depth n e = Some (outcomes, e') ->
    paced (left_scan_start e') (calls e').
Proof.
  induction n as [|n IH]; intros e e' outcomes Hp; simpl.
  - intros Heq. inversion Heq; subst. assumption.
  - destruct (DExecute depth e) as [[o e1]|] eqn:Hd; [|discriminate].
    pose proof (DExecute_paced depth e e1 o Hp Hd) as Hp1.
    destruct o.
    + destruct (advances depth n e1) as [[os e2]|] eqn:Ha; [|discriminate].
      intros Heq. inversion Heq; subst. apply (IH e1 e' os Hp1 Ha).
    + intros Heq. inversion Heq; subst. assumption.
Qed.

End Pacing.

(** While the automaton shows the start flag, the left child has not been
    advanced, and conversely. *)
Lemma pace_start_left_advances (h : list ChildCall) :
  forall q, pace_run (Ready true) h = Some q ->
    match q with
    | Ready start | RightExhausted start | RightRestarted start =>
      left_advances h = 0 <-> start = true
    | LeftDue => True
    end.
Proof.
  induction h as [|c h IH] using rev_ind; intros q Hq.
  - inversion Hq; subst. simpl. tauto.
  - apply pace_run_snoc_inv in Hq as (q0 & Hq0 & Hstep).
    specialize (IH q0 Hq0). rewrite left_advances_app.
    destruct q0 as [s0|s0|s0|], c as [[|]| |ok]; simpl in Hstep;
      try discriminate; inversion Hstep; subst; simpl;
      try (destruct s0; simpl); try tauto; try (rewrite Nat.add_0_r; tauto);
      try (split; [lia | discriminate]);
      try (split; [intros; lia | intros; discriminate]).
    all: rewrite Nat.add_0_r; destruct IH as [IH1 IH2]; split;
      [intros Hz; specialize (IH1 Hz); discriminate | discriminate].
Qed.

Lemma pace_run_left_due_next (h : list ChildCall) (start : bool) :
  pace_run LeftDue h = Some (Ready start) ->
  exists ok rest, h = LeftExecute ok :: rest.
Proof.
  destruct h as [|c rest]; simpl; [discriminate|].
  destruct c; simpl; try discriminate. eauto.
Qed.

(** A paced history obeys the discipline. *)
Lemma paced_discipline (newest_first : list ChildCall) (start : bool) :
  paced start newest_first -> left_advance_discipline (rev newest_first).
Proof.
  unfold paced. generalize (rev newest_first). clear newest_first.
  intros history Hp. split; [|split].
  - intros before ok after ->.
    rewrite pace_run_app in Hp.
    destruct (pace_run (Ready true) before) as [q|] eqn:Hq; [|discriminate].
    simpl in Hp. destruct q; simpl in Hp; try discriminate.
    destruct before as [|c earlier _] using rev_ind; [discriminate|].
    apply pace_run_snoc_inv in Hq as (q0 & Hq0 & Hstep).
    destruct q0 as [s0|s0|s0|], c as [[|]| |ok']; simpl in Hstep;
      try discriminate; try (destruct s0; discriminate).
    + exists earlier. split; [reflexivity|]. left.
      destruct s0; [|discriminate].
      apply (pace_start_left_advances earlier _ Hq0). reflexivity.
    + exists earlier. split; [reflexivity|]. right.
      destruct earlier as [|c1 older _] using rev_ind; [discriminate|].
      apply pace_run_snoc_inv in Hq0 as (q1 & Hq1 & Hstep1).
      destruct q1 as [s1|s1|s1|], c1 as [[|]| |ok1]; simpl in Hstep1;
        try discriminate; try (destruct s1; discriminate).
      destruct older as [|c2 oldest _] using rev_ind; [discriminate|].
      apply pace_run_snoc_inv in Hq1 as (q2 & Hq2 & Hstep2).
      destruct q2 as [s2|s2|s2|], c2 as [[|]| |ok2]; simpl in Hstep2;
        try discriminate; try (destruct s2; discriminate).
      exists oldest. rewrite <- app_assoc. reflexivity.
  - intros before after ->.
    rewrite pace_run_app in Hp.
    destruct (pace_run (Ready true) before) as [q|]; [|discriminate].
    destruct q; simpl in Hp; try discriminate.
    apply (pace_run_left_due_next after start). assumption.
  - intros before after -> Hnone.
    rewrite pace_run_app in Hp.
    destruct (pace_run (Ready true) before) as [q|] eqn:Hq; [|discriminate].
    pose proof (pace_start_left_advances before q Hq) as Hflag.
    destruct q as [s|s|s|]; simpl in Hp; try discriminate.
    + apply Hflag in Hnone. subst s.
      apply (pace_run_left_due_next after start). assumption.
    + apply (pace_run_left_due_next after start). assumption.
Qed.

(** *** Termination over children that produce finitely many tiles *)

Lemma DExecute_enough_depth (depth : nat) :
  forall e : NestedLoopJoinExecutor TileSource TileSource,
    remaining_pairs e < depth ->
    exists o e', DExecute depth e = Some (o, e').
Proof.
  induction depth as [|depth IH]; intros e Hm; [lia|].
  destruct e as [l r pred start o history].
  destruct l as [lts lp lc lh], r as [rts rp rc rh].
  unfold remaining_pairs in Hm. simpl in Hm.
  assert (Hretry : forall e3 : NestedLoopJoinExecutor TileSource TileSource,
             remaining_pairs e3 < depth ->
             exists o' e', match DExecute depth e3 with
                           | None => None
                           | Some (AssertionFailed, e4) => Some (AssertionFailed, e4)
                           | Some (Returned _, e4) => Some (Returned true, e4)
                           end = Some (o', e')).
  { intros e3 H3. destruct (IH e3 H3) as (o3 & e4 & ->).
    destruct o3; eauto. }
  cbn [DExecute]. unfold pull_right, pull_left, take_tiles. cbn.
  unfold source_Execute, source_GetOutput. cbn.
  destruct rp as [|rt rp]; cbn.
  - (* the right child is exhausted and restarted *)
    destruct rts as [|rt rts]; cbn; [eauto|].
    rewrite orb_true_r.
    destruct lp as [|lt lp]; cbn; [eauto|].
    destruct lh, rh; cbn;
      (destruct (join_tiles pred lt rt); [eauto| |eauto]);
      apply Hretry; unfold remaining_pairs; cbn in *; lia.
  - (* the next right tile *)
    rewrite orb_false_r.
    destruct start; cbn.
    + destruct lp as [|lt lp]; cbn; [eauto|].
      destruct lh, rh; cbn;
        (destruct (join_tiles pred lt rt); [eauto| |eauto]);
        apply Hretry; unfold remaining_pairs; cbn in *; lia.
    + destruct lc as [lt|]; [|destruct lh, rh; cbn; eauto].
      destruct lh, rh; cbn;
        (destruct (join_tiles pred lt rt); [eauto| |eauto]);
        apply Hretry; unfold remaining_pairs; cbn in *; lia.
Qed.

(** Over children that produce finitely many tiles every call of DExecute
    ends: it returns or fails an assertion. *)
Lemma DExecute_terminates (e : NestedLoopJoinExecutor TileSource TileSource) :
  exists depth o e', DExecute depth e = Some (o, e').
Proof.
  exists (S (remaining_pairs e)). apply DExecute_enough_depth. lia.
Qed.

(** C7 fails in the code: the join keeps no left tile.  The left child is
    advanced as the claim says (on the first scan and after a restart of the
    right child, [pull_left]), but a call that does not advance it fetches the
    left tile from the child again (line 90, under the comment "Already have
    left tile" of line 87), into a pointer that is local to the call.  So for
    any children: a call after the first scan that pulls the next right tile
    without a restart and gets null from the left child's GetOutput fails the
    assertion of line 94, the left child not advanced.  Over children that
    hand their tile over on GetOutput, the first call joins the first left
    tile with the first right tile and the second call, which should pair the
    same left tile with the second right tile, fails that assertion. *)
Theorem cached_left_tile_is_not_kept :
  (forall (L R : Type) (HL : AbstractExecutor L) (HR : AbstractExecutor R)
          (e e1 : NestedLoopJoinExecutor L R) (d : nat),
     left_scan_start e = false ->
     pull_right e = (Some false, e1) ->
     fst (GetOutput (children_0 e)) = None ->
     exists e',
       DExecute (S d) e = Some (AssertionFailed, e')
       /\ children_0 e' = snd (GetOutput (children_0 e))
       /\ output e' = output e)
  /\ (forall (pred : option AbstractExpression) (l r1 r2 out : LogicalTile)
             (ls rs : list LogicalTile) (d : nat),
        join_tiles pred l r1 = JoinOutput out ->
        exists e1 e2,
          DExecute (S d) (join_of true pred (l :: ls) (r1 :: r2 :: rs))
          = Some (Returned true, e1)
          /\ output e1 = Some out
          /\ left_scan_start e1 = false
          /\ children_0 e1 = mkSource (l :: ls) ls None true
          /\ pending (children_1 e1) = r2 :: rs
          /\ DExecute (S d) e1 = Some (AssertionFailed, e2)
          /\ children_0 e2 = children_0 e1
          /\ pending (children_1 e2) = rs
          /\ output e2 = Some out).
Proof.
  split.
  - intros L R HL HR e e1 d Hstart Hpull Hnull.
    cbn [DExecute]. rewrite Hpull.
    assert (He1 : children_0 e1 = children_0 e
                  /\ left_scan_start e1 = left_scan_start e
                  /\ output e1 = output e).
    { revert Hpull. unfold pull_right.
      destruct (Execute (children_1 e)) as [got r1']. destruct got; simpl.
      - intros Heq. inversion Heq; subst. auto.
      - destruct (Init r1') as [b r2']. destruct (Execute r2') as [again r3].
        destruct again; intros Heq; inversion Heq. }
    destruct He1 as (Hc0 & Hs1 & Ho1).
    unfold pull_left. rewrite Hs1, Hstart. simpl.
    unfold take_tiles. rewrite Hc0.
    destruct (GetOutput (children_0 e)) as [lt l1]. simpl in Hnull. subst lt.
    destruct (GetOutput (children_1 e1)) as [rt r1'].
    eexists. split; [reflexivity|]. simpl. auto.
  - intros pred l r1 r2 out ls rs d Hjoin.
    do 2 eexists.
    split; [cbn; rewrite Hjoin; reflexivity|].
    repeat (split; [reflexivity|]). reflexivity.
Qed.

(** C7 at its failing input: the left tile {10, 20} and the right tiles {5},
    {6}, without predicate, over children that hand their tile over. *)
Lemma cached_left_tile_is_not_kept_witness :
  (exists e',
     DExecute 1 after_first_advance = Some (AssertionFailed, e')
     /\ children_0 e' = snd (GetOutput (children_0 after_first_advance))
     /\ output e' = output after_first_advance)
  /\ (exists e1 e2,
        DExecute 1 (join_of true None [left_10_20] [right_5; right_6])
        = Some (Returned true, e1)
        /\ output e1 = Some (mkTile [1%N; 2%N] [[10%N; 20%N]; [5%N; 5%N]])
        /\ left_scan_start e1 = false
        /\ children_0 e1 = mkSource [left_10_20] [] None true
        /\ pending (children_1 e1) = [right_6]
        /\ DExecute 1 e1 = Some (AssertionFailed, e2)
        /\ children_0 e2 = children_0 e1
        /\ pending (children_1 e2) = []
        /\ output e2 = Some (mkTile [1%N; 2%N] [[10%N; 20%N]; [5%N; 5%N]])).
Proof.
  destruct cached_left_tile_is_not_kept as [Hnull Hrun].
  split.
  - refine (Hnull _ _ _ _ after_first_advance
                  (snd (pull_right after_first_advance)) 0 _ _ _); reflexivity.
  - refine (Hrun None left_10_20 right_5 right_6 _ [] [] 0 _).
    reflexivity.
Defined.

(** *** More on one pair of tiles *)

Lemma columns_of_row_count lt rt pairs :
  0 < length (GetPositionLists lt) + length (GetPositionLists rt) ->
  row_count (columns_of lt rt pairs) = length pairs.
Proof.
  intros Hc. unfold row_count.
  rewrite columns_of_lookup by assumption. apply length_fmap.
Qed.

Lemma join_tiles_unfold pred lt rt :
  join_tiles pred lt rt
  = if decide (length (GetPositionLists lt) = 0
               \/ length (GetPositionLists rt) = 0)
    then JoinAssertionFailed
    else match emitted_pairs pred lt rt with
         | [] => JoinEmpty
         | _ :: _ =>
           JoinOutput (mkTile (join_schema lt rt)
                         (columns_of lt rt (emitted_pairs pred lt rt)))
         end.
Proof.
  unfold join_tiles. rewrite join_position_lists_columns.
  destruct (length (GetPositionLists lt)) as [|lc] eqn:Hlc;
    [rewrite decide_True by tauto; reflexivity|].
  destruct (length (GetPositionLists rt)) as [|rc] eqn:Hrc;
    [rewrite decide_True by tauto; reflexivity|].
  rewrite decide_False by lia. simpl.
  rewrite columns_of_row_count by lia.
  destruct (emitted_pairs pred lt rt); reflexivity.
Qed.

Lemma emitted_pairs_nil_iff pred lt rt :
  emitted_pairs pred lt rt = []
  <-> forall i j, i < row_count (GetPositionLists lt) ->
                  j < row_count (GetPositionLists rt) ->
                  skip_pair pred lt rt i j = true.
Proof.
  split.
  - intros Hnil i j Hi Hj.
    destruct (skip_pair pred lt rt i j) eqn:Hskip; [reflexivity|].
    assert (Hin : In (i, j) (emitted_pairs pred lt rt))
      by (apply emitted_pairs_In; auto).
    rewrite Hnil in Hin. destruct Hin.
  - intros Hall. destruct (emitted_pairs pred lt rt) as [|[i j] rest] eqn:Hp;
      [reflexivity|].
    assert (Hin : In (i, j) (emitted_pairs pred lt rt))
      by (rewrite Hp; left; reflexivity).
    apply emitted_pairs_In in Hin as (Hi & Hj & Hskip).
    rewrite (Hall i j Hi Hj) in Hskip. discriminate.
Qed.

(** X1: what the join of two tiles comes to.  An assertion fails exactly when
    one of the tiles has no column; otherwise the pass ends in the retry
    exactly when every pair of rows is skipped, and it publishes a tile
    exactly when some pair is not skipped, and then the tile is the one made
    of the emitted pairs under the concatenated schema. *)
Theorem join_tiles_outcome (pred : option AbstractExpression) (lt rt : LogicalTile) :
  (join_tiles pred lt rt = JoinAssertionFailed
   <-> length (GetPositionLists lt) = 0 \/ length (GetPositionLists rt) = 0)
  /\ (join_tiles pred lt rt = JoinEmpty
      <-> 0 < length (GetPositionLists lt)
          /\ 0 < length (GetPositionLists rt)
          /\ forall i j, i < row_count (GetPositionLists lt) ->
                         j < row_count (GetPositionLists rt) ->
                         skip_pair pred lt rt i j = true)
  /\ (forall t,
        join_tiles pred lt rt = JoinOutput t
        <-> 0 < length (GetPositionLists lt)
            /\ 0 < length (GetPositionLists rt)
            /\ (exists i j, i < row_count (GetPositionLists lt)
                            /\ j < row_count (GetPositionLists rt)
                            /\ skip_pair pred lt rt i j = false)
            /\ t = mkTile (GetSchema lt ++ GetSchema rt)
                          (columns_of lt rt (emitted_pairs pred lt rt))).
Proof.
  rewrite join_tiles_unfold. rewrite <- emitted_pairs_nil_iff.
  assert (Hex : (exists i j, i < row_count (GetPositionLists lt)
                             /\ j < row_count (GetPositionLists rt)
                             /\ skip_pair pred lt rt i j = false)
                <-> emitted_pairs pred lt rt <> []).
  { split.
    - intros (i & j & Hi & Hj & Hs) Hnil.
      assert (Hin : In (i, j) (emitted_pairs pred lt rt))
        by (apply emitted_pairs_In; auto).
      rewrite Hnil in Hin. destruct Hin.
    - intros Hne. destruct (emitted_pairs pred lt rt) as [|[i j] rest] eqn:Hp;
        [congruence|].
      exists i, j. apply emitted_pairs_In. rewrite Hp. left. reflexivity. }
  case_decide as Hz.
  - split; [tauto|]. split; [split; [discriminate | lia]|].
    intros t. split; [discriminate | lia].
  - destruct (emitted_pairs pred lt rt) as [|p rest] eqn:Hp;
      (split; [split; [discriminate | tauto]|]).
    + split; [split; [intros _; repeat split; lia | intros _; reflexivity]|].
      intros t. split; [discriminate|].
      intros (_ & _ & Hsome & _). apply Hex in Hsome. congruence.
    + split; [split; [discriminate | intros (_ & _ & Hnil); discriminate]|].
      intros t. split.
      * intros Heq. inversion Heq; subst.
        repeat split; try lia. apply Hex. discriminate.
      * intros (_ & _ & _ & ->). reflexivity.
Qed.

Lemma columns_of_rectangular lt rt pairs :
  Forall (fun col => length col = length pairs) (columns_of lt rt pairs).
Proof.
  unfold columns_of. apply Forall_fmap, Forall_forall. intros c _. simpl.
  apply length_fmap.
Qed.

(** X2: the tile that a join publishes is well formed.  Its schema is the
    left schema followed by the right one, it has one position list per input
    position list, all its position lists have the same length, which is the
    number of emitted pairs, at least 1 and at most L * R; and it has one
    schema column per position list when the input tiles have. *)
Theorem join_output_well_formed (pred : option AbstractExpression)
    (lt rt t : LogicalTile) :
  join_tiles pred lt rt = JoinOutput t ->
  GetSchema t = GetSchema lt ++ GetSchema rt
  /\ length (GetPositionLists t)
     = length (GetPositionLists lt) + length (GetPositionLists rt)
  /\ rectangular t
  /\ row_count (GetPositionLists t) = length (emitted_pairs pred lt rt)
  /\ 0 < row_count (GetPositionLists t)
     <= row_count (GetPositionLists lt) * row_count (GetPositionLists rt)
  /\ (length (GetSchema lt) = length (GetPositionLists lt) ->
      length (GetSchema rt) = length (GetPositionLists rt) ->
      length (GetSchema t) = length (GetPositionLists t)).
Proof.
  rewrite join_tiles_unfold. case_decide as Hz; [discriminate|].
  destruct (emitted_pairs pred lt rt) as [|p rest] eqn:Hp; [discriminate|].
  intros Heq. inversion Heq; subst t. clear Heq. simpl.
  assert (Hrows : row_count (columns_of lt rt (p :: rest)) = length (p :: rest))
    by (apply columns_of_row_count; lia).
  assert (Hcols : length (columns_of lt rt (p :: rest))
                  = length (GetPositionLists lt) + length (GetPositionLists rt))
    by (unfold columns_of; rewrite length_fmap, length_seq; reflexivity).
  split; [reflexivity|]. split; [exact Hcols|].
  split; [unfold rectangular; simpl; rewrite Hrows; apply columns_of_rectangular|].
  split; [exact Hrows|]. split.
  - rewrite Hrows. split; [simpl; lia|].
    rewrite <- Hp. unfold emitted_pairs.
    etransitivity; [apply List.filter_length_le|].
    rewrite length_prod, !length_seq. reflexivity.
  - intros Hl Hr. unfold join_schema. rewrite length_app, Hcols. lia.
Qed.

(** X2 at the tiles {10, 20} and {5, 15, 25} under left.col0 < right.col0. *)
Lemma join_output_well_formed_witness :
  let t := mkTile [1%N; 2%N] [[10; 10; 20]%N; [15; 25; 25]%N] in
  GetSchema t = GetSchema left_10_20 ++ GetSchema right_5_15_25
  /\ length (GetPositionLists t) = 1 + 1
  /\ rectangular t
  /\ row_count (GetPositionLists t)
     = length (emitted_pairs (Some less_than) left_10_20 right_5_15_25)
  /\ 0 < row_count (GetPositionLists t) <= 2 * 3
  /\ (length (GetSchema left_10_20) = length (GetPositionLists left_10_20) ->
      length (GetSchema right_5_15_25) = length (GetPositionLists right_5_15_25) ->
      length (GetSchema t) = length (GetPositionLists t)).
Proof.
  apply (join_output_well_formed (Some less_than) left_10_20 right_5_15_25).
  reflexivity.
Defined.

(** X3: the join invents no position.  For rectangular tiles, every
    position in one of the first Lc position lists of the published tile is a
    position of the left tile's list of the same index, and every position in
    list Lc + c is a position of the right tile's list c. *)
Theorem join_output_positions_from_inputs (pred : option AbstractExpression)
    (lt rt t : LogicalTile) :
  rectangular lt -> rectangular rt ->
  join_tiles pred lt rt = JoinOutput t ->
  forall (c : nat) (ocol : list oid_t) (x : oid_t),
    GetPositionLists t !! c = Some ocol -> x ∈ ocol ->
    (c < length (GetPositionLists lt)
     /\ exists col, GetPositionLists lt !! c = Some col /\ x ∈ col)
    \/ (length (GetPositionLists lt) <= c
        /\ exists col,
             GetPositionLists rt !! (c - length (GetPositionLists lt)) = Some col
             /\ x ∈ col).
Proof.
  intros Hlt Hrt. rewrite join_tiles_unfold. case_decide as Hz; [discriminate|].
  destruct (emitted_pairs pred lt rt) as [|p0 rest] eqn:Hp; [discriminate|].
  rewrite <- Hp. intros Heq. inversion Heq; subst t. clear Heq. simpl.
  intros c ocol x Hc Hx.
  assert (Hclt : c < length (GetPositionLists lt) + length (GetPositionLists rt)).
  { apply lookup_lt_Some in Hc. unfold columns_of in Hc.
    rewrite length_fmap, length_seq in Hc. exact Hc. }
  rewrite columns_of_lookup in Hc by assumption.
  inversion Hc; subst ocol. clear Hc.
  apply list_elem_of_fmap in Hx as ([i j] & -> & Hin).
  apply list_elem_of_In, emitted_pairs_In in Hin as (Hi & Hj & _).
  unfold output_cell. simpl.
  destruct (Nat.ltb_spec c (length (GetPositionLists lt))) as [Hl|Hl].
  - left. split; [assumption|].
    destruct (lookup_lt_is_Some_2 _ _ Hl) as [col Hcol].
    exists col. split; [assumption|].
    pose proof (Forall_lookup_1 _ _ _ _ Hlt Hcol) as Hlen. simpl in Hlen.
    apply (list_elem_of_lookup_2 _ i).
    rewrite <- (position_at_lookup _ _ _ _ Hcol); [reflexivity | lia].
  - right. split; [assumption|].
    assert (Hr : c - length (GetPositionLists lt) < length (GetPositionLists rt))
      by lia.
    destruct (lookup_lt_is_Some_2 _ _ Hr) as [col Hcol].
    exists col. split; [assumption|].
    pose proof (Forall_lookup_1 _ _ _ _ Hrt Hcol) as Hlen. simpl in Hlen.
    apply (list_elem_of_lookup_2 _ j).
    rewrite <- (position_at_lookup _ _ _ _ Hcol); [reflexivity | lia].
Qed.

(** X3 at the tiles {10, 20} and {5, 15, 25} under left.col0 < right.col0:
    the position 25 of the second output list is a position of the right
    tile. *)
Lemma join_output_positions_from_inputs_witness :
  (1 < length (GetPositionLists left_10_20)
   /\ exists col, GetPositionLists left_10_20 !! 1 = Some col /\ 25%N ∈ col)
  \/ (length (GetPositionLists left_10_20) <= 1
      /\ exists col,
           GetPositionLists right_5_15_25
             !! (1 - length (GetPositionLists left_10_20)) = Some col
           /\ 25%N ∈ col).
Proof.
  apply (join_output_positions_from_inputs (Some less_than)
           left_10_20 right_5_15_25
           (mkTile [1%N; 2%N] [[10; 10; 20]%N; [15; 25; 25]%N])
           ltac:(repeat constructor) ltac:(repeat constructor) eq_refl
           1 [15; 25; 25]%N 25%N eq_refl).
  apply list_elem_of_In. simpl. tauto.
Defined.

Lemma emitted_pairs_never_false (p : AbstractExpression) lt rt :
  (forall i j,
     i < row_count (GetPositionLists lt) ->
     j < row_count (GetPositionLists rt) ->
     p (mkContainerTuple lt i) (mkContainerTuple rt j) <> ValueFalse) ->
  emitted_pairs (Some p) lt rt = emitted_pairs None lt rt.
Proof.
  intros Hp. unfold emitted_pairs. apply List.filter_ext_in.
  intros [i j] Hin. apply in_prod_iff in Hin as [Hi Hj].
  apply in_seq in Hi, Hj. simpl.
  specialize (Hp i j ltac:(lia) ltac:(lia)).
  destruct (p (mkContainerTuple lt i) (mkContainerTuple rt j));
    [reflexivity | congruence | reflexivity].
Qed.

(** X4: a predicate that is false of no pair of rows of the two tiles gives
    what the join without predicate gives: the same position lists and the
    same published tile. *)
Theorem never_false_predicate_is_cartesian (p : AbstractExpression)
    (lt rt : LogicalTile) :
  (forall i j,
     i < row_count (GetPositionLists lt) ->
     j < row_count (GetPositionLists rt) ->
     p (mkContainerTuple lt i) (mkContainerTuple rt j) <> ValueFalse) ->
  join_position_lists (Some p) lt rt = join_position_lists None lt rt
  /\ join_tiles (Some p) lt rt = join_tiles None lt rt.
Proof.
  intros Hp. pose proof (emitted_pairs_never_false p lt rt Hp) as Heq.
  split.
  - rewrite !join_position_lists_columns, Heq. reflexivity.
  - rewrite !join_tiles_unfold, Heq. reflexivity.
Qed.

(** X4 at the predicate that is true of every pair. *)
Lemma never_false_predicate_is_cartesian_witness :
  join_position_lists (Some always_true) left_10_20 right_5_15_25
  = join_position_lists None left_10_20 right_5_15_25
  /\ join_tiles (Some always_true) left_10_20 right_5_15_25
     = join_tiles None left_10_20 right_5_15_25.
Proof.
  apply (never_false_predicate_is_cartesian always_true left_10_20 right_5_15_25).
  intros i j _ _. discriminate.
Defined.

(** *** More on one call of DExecute, for any children *)

Lemma join_output_has_rows pred lt rt t :
  join_tiles pred lt rt = JoinOutput t -> 0 < row_count (GetPositionLists t).
Proof.
  rewrite join_tiles_unfold. case_decide as Hz; [discriminate|].
  destruct (emitted_pairs pred lt rt) as [|p rest] eqn:Hp; [discriminate|].
  intros Heq. inversion Heq; subst t. simpl.
  rewrite columns_of_row_count by lia. simpl. lia.
Qed.

Section AnyChildrenMore.
Context {L R : Type} `{AbstractExecutor L} `{AbstractExecutor R}.

Lemma pull_right_keeps (e e1 : NestedLoopJoinExecutor L R) (r : option bool) :
  pull_right e = (r, e1) ->
  children_0 e1 = children_0 e /\ predicate_ e1 = predicate_ e
  /\ output e1 = output e /\ left_scan_start e1 = left_scan_start e.
Proof.
  unfold pull_right. destruct (Execute (children_1 e)) as [got r1].
  destruct got; simpl.
  - intros Heq. inversion Heq; subst. repeat split.
  - destruct (Init r1) as [b r2]. destruct (Execute r2) as [again r3].
    destruct again; intros Heq; inversion Heq; subst; repeat split.
Qed.

Lemma pull_left_keeps (e1 e2 : NestedLoopJoinExecutor L R) (rse ok : bool) :
  pull_left rse e1 = (ok, e2) ->
  predicate_ e2 = predicate_ e1 /\ output e2 = output e1.
Proof.
  unfold pull_left. destruct (left_scan_start e1 || rse).
  - destruct (Execute (children_0 e1)) as [got l1].
    intros Heq. inversion Heq; subst. split; reflexivity.
  - intros Heq. inversion Heq; subst. split; reflexivity.
Qed.

Lemma take_tiles_keeps (e2 e3 : NestedLoopJoinExecutor L R)
    (r : option (LogicalTile * LogicalTile)) :
  take_tiles e2 = (r, e3) ->
  predicate_ e3 = predicate_ e2 /\ output e3 = output e2.
Proof.
  unfold take_tiles.
  destruct (GetOutput (children_0 e2)) as [lt l1].
  destruct (GetOutput (children_1 e2)) as [rt r1].
  destruct lt, rt; intros Heq; inversion Heq; subst; split; reflexivity.
Qed.

(** X5: DExecute returns false only for exhaustion.  When a call returns
    false, either the right child gave no tile, was initialised again and
    gave no tile again, or the left child was advanced and gave no tile; the
    call has examined no pair of tiles, and the output member and the
    predicate are as before. *)
Theorem DExecute_false_only_when_exhausted (depth : nat)
    (e e' : NestedLoopJoinExecutor L R) :
  DExecute depth e = Some (Returned false, e') ->
  output e' = output e
  /\ predicate_ e' = predicate_ e
  /\ ((fst (Execute (children_1 e)) = false
       /\ fst (Execute (snd (Init (snd (Execute (children_1 e)))))) = false
       /\ children_0 e' = children_0 e
       /\ calls e' = RightExecute false :: RightInit :: RightExecute false :: calls e)
      \/ (exists right_scan_end e1,
            pull_right e = (Some right_scan_end, e1)
            /\ left_scan_start e || right_scan_end = true
            /\ fst (Execute (children_0 e1)) = false
            /\ left_scan_start e' = false
            /\ calls e' = LeftExecute false :: calls e1)).
Proof.
  destruct depth as [|depth]; [discriminate|]. simpl.
  destruct (pull_right e) as [r e1] eqn:Hr.
  destruct (pull_right_keeps e e1 r Hr) as (Hl1 & Hp1 & Ho1 & Hs1).
  destruct r as [right_scan_end|].
  - destruct (pull_left right_scan_end e1) as [ok e2] eqn:Hl.
    destruct (pull_left_keeps e1 e2 _ _ Hl) as (Hp2 & Ho2).
    destruct ok.
    + destruct (take_tiles e2) as [tiles3 e3].
      destruct tiles3 as [[left_tile right_tile]|]; [|discriminate].
      destruct (join_tiles (predicate_ e3) left_tile right_tile);
        try discriminate.
      destruct (DExecute depth e3) as [[[b|] e4]|]; discriminate.
    + intros Heq. inversion Heq; subst e'. clear Heq.
      split; [congruence|]. split; [congruence|]. right.
      exists right_scan_end, e1. split; [reflexivity|].
      unfold pull_left in Hl. rewrite Hs1 in Hl.
      destruct (left_scan_start e || right_scan_end); [|discriminate].
      destruct (Execute (children_0 e1)) as [got l1].
      inversion Hl; subst. repeat split.
  - intros Heq. inversion Heq; subst e'. clear Heq.
    split; [assumption|]. split; [assumption|]. left.
    unfold pull_right in Hr.
    destruct (Execute (children_1 e)) as [got r1]. simpl.
    destruct got; simpl in Hr; [discriminate|].
    destruct (Init r1) as [b r2]. simpl.
    destruct (Execute r2) as [again r3]. simpl.
    destruct again; inversion Hr; subst. repeat split.
Qed.

(** X6: DExecute publishes nothing but joined tiles.  Whatever the children do
    and however a call ends, the output member is as before the call, or the
    call returned true and the member is the tile of a join of two tiles under
    the predicate, which has at least one row. *)
Theorem DExecute_publishes_only_joined_tiles (depth : nat) :
  forall (e e' : NestedLoopJoinExecutor L R) (o : Outcome),
    DExecute depth e = Some (o, e') ->
    predicate_ e' = predicate_ e
    /\ (output e' = output e
        \/ (o = Returned true
            /\ exists lt rt t,
                 join_tiles (predicate_ e) lt rt = JoinOutput t
                 /\ output e' = Some t
                 /\ 0 < row_count (GetPositionLists t))).
Proof.
  induction depth as [|depth IH]; intros e e' o; [discriminate|]. simpl.
  destruct (pull_right e) as [r e1] eqn:Hr.
  destruct (pull_right_keeps e e1 r Hr) as (Hl1 & Hp1 & Ho1 & Hs1).
  destruct r as [right_scan_end|].
  - destruct (pull_left right_scan_end e1) as [ok e2] eqn:Hl.
    destruct (pull_left_keeps e1 e2 _ _ Hl) as (Hp2 & Ho2).
    destruct ok.
    + destruct (take_tiles e2) as [tiles3 e3] eqn:Ht.
      destruct (take_tiles_keeps e2 e3 _ Ht) as (Hp3 & Ho3).
      assert (Hp : predicate_ e3 = predicate_ e) by congruence.
      assert (Ho : output e3 = output e) by congruence.
      destruct tiles3 as [[left_tile right_tile]|].
      * destruct (join_tiles (predicate_ e3) left_tile right_tile) as [| |t] eqn:Hj.
        -- intros Heq. inversion Heq; subst. auto.
        -- destruct (DExecute depth e3) as [[o4 e4]|] eqn:Hrec; [|discriminate].
           destruct (IH e3 e4 o4 Hrec) as [Hp4 Ho4].
           rewrite Hp in Hp4, Ho4. rewrite Ho in Ho4.
           destruct o4; intros Heq; inversion Heq; subst;
             (split; [assumption|]);
             destruct Ho4 as [Hsame|[Hret Hex]]; auto; discriminate.
        -- intros Heq. inversion Heq; subst. simpl. split; [assumption|].
           right. split; [reflexivity|].
           exists left_tile, right_tile, t. rewrite <- Hp.
           split; [assumption|]. split; [reflexivity|].
           apply (join_output_has_rows _ _ _ _ Hj).
      * intros Heq. inversion Heq; subst. auto.
    + intros Heq. inversion Heq; subst. split; [congruence|]. left. congruence.
  - intros Heq. inversion Heq; subst. auto.
Qed.

End AnyChildrenMore.

(** X5 at a join whose right child produces nothing. *)
Lemma DExecute_false_only_when_exhausted_witness :
  let e := join_of false None [left_10] [] in
  exists e',
    DExecute 1 e = Some (Returned false, e')
    /\ output e' = output e
    /\ predicate_ e' = predicate_ e
    /\ ((fst (Execute (children_1 e)) = false
         /\ fst (Execute (snd (Init (snd (Execute (children_1 e)))))) = false
         /\ children_0 e' = children_0 e
         /\ calls e' = RightExecute false :: RightInit :: RightExecute false :: calls e)
        \/ (exists right_scan_end e1,
              pull_right e = (Some right_scan_end, e1)
              /\ left_scan_start e || right_scan_end = true
              /\ fst (Execute (children_0 e1)) = false
              /\ left_scan_start e' = false
              /\ calls e' = LeftExecute false :: calls e1)).
Proof.
  eexists. split; [cbv; reflexivity|].
  apply (DExecute_false_only_when_exhausted 1 (join_of false None [left_10] [])).
  cbv. reflexivity.
Defined.

(** X6 at the first advance of the join of {10, 20} and {5, 15, 25} under
    left.col0 < right.col0. *)
Lemma DExecute_publishes_only_joined_tiles_witness :
  let e := join_of false (Some less_than) [left_10_20] [right_5_15_25] in
  exists o e',
    DExecute 1 e = Some (o, e')
    /\ predicate_ e' = predicate_ e
    /\ (output e' = output e
        \/ (o = Returned true
            /\ exists lt rt t,
                 join_tiles (predicate_ e) lt rt = JoinOutput t
                 /\ output e' = Some t
                 /\ 0 < row_count (GetPositionLists t))).
Proof.
  do 2 eexists. split; [cbv; reflexivity|].
  apply (DExecute_publishes_only_joined_tiles 1
           (join_of false (Some less_than) [left_10_20] [right_5_15_25])).
  cbv. reflexivity.
Defined.

(** *** A whole run over children that produce finitely many tiles *)

Lemma joined_Some pred l r t :
  joined pred l r = Some t -> join_tiles pred l r = JoinOutput t.
Proof.
  unfold joined. destruct (join_tiles pred l r); congruence.
Qed.

(** A pass that pairs the cached left tile with the next right tile. *)
Lemma running_next_right pred ls rs lp l r rp rc out history t :
  joined pred l r = Some t ->
  DExecute 1 (running pred ls rs lp (Some l) (r :: rp) rc false out history)
  = Some (Returned true,
          running pred ls rs lp (Some l) rp (Some r) false (Some t)
                  (RightExecute true :: history)).
Proof.
  intros Hj. apply joined_Some in Hj.
  cbn [DExecute]. unfold pull_right, pull_left, take_tiles. cbn.
  rewrite Hj. reflexivity.
Qed.

(** A pass that restarts the right child and advances the left child. *)
Lemma running_next_left pred ls r rs l' lp lc rc out history t :
  joined pred l' r = Some t ->
  DExecute 1 (running pred ls (r :: rs) (l' :: lp) lc [] rc false out history)
  = Some (Returned true,
          running pred ls (r :: rs) lp (Some l') rs (Some r) false (Some t)
                  (LeftExecute true :: RightExecute true :: RightInit
                   :: RightExecute false :: history)).
Proof.
  intros Hj. apply joined_Some in Hj.
  cbn [DExecute]. unfold pull_right, pull_left, take_tiles. cbn.
  rewrite Hj. reflexivity.
Qed.

(** The first pass of a run. *)
Lemma fresh_first_pair pred l ls r rs t :
  joined pred l r = Some t ->
  DExecute 1 (join_of false pred (l :: ls) (r :: rs))
  = Some (Returned true,
          running pred (l :: ls) (r :: rs) ls (Some l) rs (Some r) false
                  (Some t) [LeftExecute true; RightExecute true]).
Proof.
  intros Hj. apply joined_Some in Hj.
  unfold join_of. cbn [DExecute]. unfold pull_right, pull_left, take_tiles. cbn.
  rewrite Hj. reflexivity.
Qed.

Lemma running_exhausted pred ls rs lp lc rc out history :
  rs = [] \/ lp = [] ->
  exists e',
    DExecute 1 (running pred ls rs lp lc [] rc false out history)
    = Some (Returned false, e').
Proof.
  intros Hnil. destruct rs as [|r rs]; [eexists; reflexivity|].
  destruct Hnil as [Hnil|Hnil]; [discriminate|]. subst lp.
  eexists. reflexivity.
Qed.

Lemma list_prod_nil_r {A B : Type} (xs : list A) :
  list_prod xs (@nil B) = [].
Proof. induction xs as [|x xs IH]; simpl; [reflexivity | exact IH]. Qed.

Lemma joined_all_cons pred l ls rs :
  joined_all pred (l :: ls) rs
  = (joined pred l <$> rs) ++ joined_all pred ls rs.
Proof.
  unfold joined_all. simpl. rewrite fmap_app. f_equal.
  change (List.map (fun y => (l, y)) rs) with ((fun y => (l, y)) <$> rs).
  rewrite <- list_fmap_compose. reflexivity.
Qed.

(** The parent's loop from the middle of a run. *)
Lemma drain_running pred ls rs (lp : list LogicalTile) :
  forall l rp rc out history n,
    Forall (fun r => is_Some (joined pred l r)) rp ->
    all_productive pred lp rs ->
    length rp + length lp * length rs < n ->
    exists e',
      drain 1 n (running pred ls rs lp (Some l) rp rc false out history)
      = Some ((joined pred l <$> rp) ++ joined_all pred lp rs, e').
Proof.
  induction lp as [|l' lp IHlp]; intros l rp;
    induction rp as [|r rp IHrp]; intros rc out history n Hl Hlp Hn;
    (destruct n as [|n]; [lia|]); cbn [drain].
  - destruct (running_exhausted pred ls rs [] (Some l) rc out history)
      as [e' ->]; [tauto|].
    exists e'. reflexivity.
  - inversion Hl as [|? ? [t Ht] Hl']; subst.
    rewrite (running_next_right _ _ _ _ _ _ _ _ _ _ t Ht).
    destruct (IHrp (Some r) (Some t) (RightExecute true :: history) n Hl' Hlp)
      as [e' ->]; [simpl in *; lia|].
    exists e'. simpl. rewrite Ht. reflexivity.
  - destruct rs as [|r rs].
    + destruct (running_exhausted pred ls [] (l' :: lp) (Some l) rc out history)
        as [e' ->]; [tauto|].
      exists e'. unfold joined_all. rewrite list_prod_nil_r. reflexivity.
    + inversion Hlp as [|? ? Hl' Hlp']; subst.
      inversion Hl' as [|? ? [t Ht] Hl'']; subst.
      rewrite (running_next_left _ _ _ _ _ _ _ _ _ _ t Ht).
      destruct (IHlp l' rs (Some r) (Some t)
                  (LeftExecute true :: RightExecute true :: RightInit
                   :: RightExecute false :: history) n Hl'' Hlp')
        as [e' ->]; [simpl in *; lia|].
      exists e'. rewrite joined_all_cons. simpl. rewrite Ht. reflexivity.
  - inversion Hl as [|? ? [t Ht] Hl']; subst.
    rewrite (running_next_right _ _ _ _ _ _ _ _ _ _ t Ht).
    destruct (IHrp (Some r) (Some t) (RightExecute true :: history) n Hl' Hlp)
      as [e' ->]; [simpl in *; lia|].
    exists e'. simpl. rewrite Ht. reflexivity.
Qed.

(** The parent's loop from the start of a run. *)
Lemma drain_fresh pred (ls rs : list LogicalTile) (n : nat) :
  all_productive pred ls rs ->
  length ls * length rs < n ->
  exists e',
    drain 1 n (join_of false pred ls rs) = Some (joined_all pred ls rs, e').
Proof.
  intros Hprod Hn.
  destruct n as [|n]; [lia|].
  destruct rs as [|r rs].
  - exists (snd (pull_right (join_of false pred ls []))).
    unfold joined_all. rewrite list_prod_nil_r. reflexivity.
  - destruct ls as [|l ls].
    + eexists. reflexivity.
    + inversion Hprod as [|? ? Hl Hprod']; subst.
      inversion Hl as [|? ? [t Ht] Hl']; subst.
      destruct (drain_running pred (l :: ls) (r :: rs) ls l rs (Some r) (Some t)
                  [LeftExecute true; RightExecute true] n Hl' Hprod')
        as [e' He']; [simpl in *; lia|].
      exists e'.
      rewrite joined_all_cons, fmap_cons, Ht.
      cbn [drain]. rewrite (fresh_first_pair _ _ _ _ _ t Ht), He'.
      reflexivity.
Qed.



(** The join of two tiles with rows, without predicate. *)
Lemma joined_no_predicate (l r : LogicalTile) :
  0 < row_count (GetPositionLists l) ->
  0 < row_count (GetPositionLists r) ->
  joined None l r
  = Some (mkTile (GetSchema l ++ GetSchema r)
            (columns_of l r
               (list_prod (seq 0 (row_count (GetPositionLists l)))
                          (seq 0 (row_count (GetPositionLists r)))))).
Proof.
  intros Hl Hr. unfold joined. rewrite join_tiles_unfold.
  pose proof (row_count_pos_columns _ Hl).
  pose proof (row_count_pos_columns _ Hr).
  rewrite decide_False by lia.
  rewrite emitted_pairs_no_predicate.
  destruct (list_prod (seq 0 (row_count (GetPositionLists l)))
                      (seq 0 (row_count (GetPositionLists r)))) eqn:Hp;
    [|reflexivity].
  apply (f_equal length) in Hp. rewrite length_prod, !length_seq in Hp.
  simpl in Hp. nia.
Qed.






End JoinProperties.

(** ** Properties of the tuple *)

Module TupleProperties.
Import Storage.

Local Open Scope Z_scope.

Lemma store_drop (off : nat) (bytes buffer : list byte) :
  (off <= length buffer)%nat ->
  drop off (store off bytes buffer) = bytes ++ drop (off + length bytes) buffer.
Proof.
  intros Hoff. unfold store.
  rewrite drop_app_length'; [reflexivity|].
  rewrite length_take. lia.
Qed.

Lemma store_length (off : nat) (bytes buffer : list byte) :
  (off + length bytes <= length buffer)%nat ->
  length (store off bytes buffer) = length buffer.
Proof.
  intros Hfit. unfold store.
  rewrite !length_app, length_take, length_drop. lia.
Qed.

(** *** The encoding of the small Value *)

Lemma encode_length (n : nat) : forall z, length (encode n z) = n.
Proof.
  induction n as [|n IH]; intros z; simpl; [reflexivity|].
  rewrite IH. reflexivity.
Qed.

Lemma decode_unsigned_encode (n : nat) :
  forall z, decode_unsigned (encode n z) = z mod 256 ^ Z.of_nat n.
Proof.
  induction n as [|n IH]; intros z.
  - simpl. rewrite Z.mod_1_r. reflexivity.
  - cbn [encode decode_unsigned]. rewrite IH.
    rewrite Nat2Z.inj_succ, Z.pow_succ_r by lia.
    rewrite Z.rem_mul_r by lia. reflexivity.
Qed.

Lemma decode_encode (n : nat) (z : Z) (rest : list byte) :
  (0 < n)%nat ->
  - 2 ^ (8 * Z.of_nat n - 1) <= z < 2 ^ (8 * Z.of_nat n - 1) ->
  decode n (encode n z ++ rest) = z.
Proof.
  intros Hn Hz. unfold decode.
  rewrite take_app_length' by (symmetry; apply encode_length).
  rewrite decode_unsigned_encode.
  assert (Hpow : 256 ^ Z.of_nat n = 2 ^ (8 * Z.of_nat n)).
  { change 256 with (2 ^ 8). rewrite <- Z.pow_mul_r by lia. reflexivity. }
  assert (Hdouble : 2 ^ (8 * Z.of_nat n) = 2 * 2 ^ (8 * Z.of_nat n - 1)).
  { rewrite <- Z.pow_succ_r by lia. f_equal. lia. }
  rewrite Hpow.
  set (half := 2 ^ (8 * Z.of_nat n - 1)) in *.
  assert (Hhalf : 0 < half) by (apply Z.pow_pos_nonneg; lia).
  destruct (Z_lt_le_dec z 0) as [Hneg|Hpos].
  - assert (Hmod : z mod 2 ^ (8 * Z.of_nat n) = z + 2 ^ (8 * Z.of_nat n)).
    { symmetry. apply (Z.mod_unique _ _ (-1)); lia. }
    rewrite Hmod.
    destruct (Z.ltb_spec (z + 2 ^ (8 * Z.of_nat n)) half); lia.
  - rewrite Z.mod_small by lia.
    destruct (Z.ltb_spec z half); lia.
Qed.

(** Encode followed by decode gives the value back, for every type of the
    small Value and every value within the range of its type. *)
Lemma small_Value_round_trip (v : Value) (inlined : bool) (len : Z)
    (rest : list byte) :
  supported v ->
  Deserialize (Serialize v inlined len ++ rest) (GetValueType v) inlined = v.
Proof.
  intros Hv. destruct v as [type z]. unfold supported in Hv. simpl in *.
  f_equal. apply decode_encode; [destruct type; simpl; lia | exact Hv].
Qed.

(** *** SetValue followed by GetValue *)

(** What GetValue reads after SetValue: the cast value, when its
    serialization lies within the buffer and decodes to it. *)
Lemma SetValue_then_GetValue {Value ValueType : Type}
    `{ValueInterface Value ValueType}
    (h : Heap) (t : Tuple ValueType) (schema : Schema ValueType)
    (p : address) (column_id : nat) (col : Column ValueType)
    (buffer : list byte) (v : Value) :
  tuple_schema t = Some schema ->
  tuple_data t = Some p ->
  columns schema !! column_id = Some col ->
  h !! p = Some buffer ->
  (column_offset col
   + length (Serialize (CastAs v (column_type col)) (is_inlined col)
               (if is_inlined col then fixed_length col
                else variable_length col))
   <= length buffer)%nat ->
  (forall rest,
     Deserialize
       (Serialize (CastAs v (column_type col)) (is_inlined col)
          (if is_inlined col then fixed_length col else variable_length col)
        ++ rest)
       (column_type col) (is_inlined col)
     = CastAs v (column_type col)) ->
  exists h',
    SetValue h t column_id v = Some h'
    /\ GetValue h' t column_id = Some (CastAs v (column_type col)).
Proof.
  intros Hschema Hdata Hcol Hbuf Hfit Hround.
  unfold SetValue, GetValue, GetDataPtr, GetType, IsInlined, GetOffset,
    GetLength, GetVariableLength.
  rewrite Hschema, Hdata. simpl. rewrite Hcol. simpl.
  assert (Hlen : (if is_inlined col then Some (fixed_length col)
                  else Some (variable_length col))
                 = Some (if is_inlined col then fixed_length col
                         else variable_length col))
    by (destruct (is_inlined col); reflexivity).
  rewrite Hlen, Hbuf. simpl.
  eexists. split; [reflexivity|].
  rewrite lookup_insert_eq. simpl.
  rewrite store_drop by lia. rewrite Hround. reflexivity.
Qed.



(** *** Destruction *)

(** C9, as the code has it: the destructor releases the block that
    tuple_data points at, whoever allocated it, and nothing else: every other
    block, an out-of-line payload among them, stays as it is, and a tuple
    without buffer releases nothing.  A tuple made by the allocating
    constructor gets a fresh block, and destroying it gives the heap back as
    it was; a tuple made over the caller's buffer releases that buffer. *)
Theorem destructor_releases_tuple_data_only :
  (forall (ValueType : Type) (t : Tuple ValueType) (h : Heap),
     (forall q, tuple_data t <> Some q -> Tuple_destroy t h !! q = h !! q)
     /\ (forall p, tuple_data t = Some p -> Tuple_destroy t h !! p = None)
     /\ (tuple_data t = None -> Tuple_destroy t h = h))
  /\ (forall (ValueType : Type) (schema : Schema ValueType) (h : Heap),
        exists p,
          tuple_data (fst (Tuple_allocate schema true h)) = Some p
          /\ h !! p = None
          /\ snd (Tuple_allocate schema true h) !! p
             = Some (replicate (length_ schema) 0)
          /\ Tuple_destroy (fst (Tuple_allocate schema true h))
                           (snd (Tuple_allocate schema true h)) = h)
  /\ (forall (ValueType : Type) (schema : Schema ValueType) (data : address)
             (h : Heap),
        Tuple_destroy (Tuple_over schema data) h = delete data h).
Proof.
  split; [|split].
  - intros ValueType t h. unfold Tuple_destroy.
    destruct (tuple_data t) as [p|].
    + split; [|split].
      * intros q Hq. apply lookup_delete_ne. congruence.
      * intros p' Hp'. inversion Hp'; subst. apply lookup_delete_eq.
      * discriminate.
    + split; [|split].
      * intros q _. reflexivity.
      * discriminate.
      * reflexivity.
  - intros ValueType schema h. simpl.
    assert (Hfresh : h !! fresh (dom h) = None)
      by (apply not_elem_of_dom, is_fresh).
    exists (fresh (dom h)). split; [reflexivity|]. split; [exact Hfresh|].
    split; [apply lookup_insert_eq|].
    unfold Tuple_destroy. simpl. rewrite delete_insert_eq.
    apply delete_id. exact Hfresh.
  - reflexivity.
Qed.

(** C9 fails as stated: the tuple made over the caller's buffer at address 7
    releases that buffer when it is destroyed, and so does a copy of it. *)
Lemma destructor_frees_borrowed_buffer :
  caller_heap !! 7%N = Some (replicate 12 0)
  /\ Tuple_destroy (Tuple_over two_columns 7%N) caller_heap !! 7%N = None
  /\ Tuple_destroy (Tuple_copy (Tuple_over two_columns 7%N)) caller_heap !! 7%N
     = None.
Proof.
  split; [reflexivity|]. split; reflexivity.
Qed.

(** A tuple whose buffer is unset, by construction, by SetNull or by Move to
    the null pointer, releases nothing when it is destroyed: this is how the
    owner of a borrowed buffer keeps it. *)
Lemma destructor_after_SetNull (ValueType : Type) (t : Tuple ValueType) (h : Heap) :
  Tuple_destroy (SetNull t) h = h
  /\ Tuple_destroy (Move t None) h = h
  /\ Tuple_destroy (@Tuple_default ValueType) h = h.
Proof. repeat split. Qed.

(** C9 at a tuple over the buffer at address 7 next to a payload at address
    9, at a tuple without buffer, and at an allocated tuple. *)
Lemma destructor_releases_tuple_data_only_witness :
  Tuple_destroy (Tuple_over two_columns 7%N) payload_heap !! 9%N
  = payload_heap !! 9%N
  /\ Tuple_destroy (Tuple_over two_columns 7%N) payload_heap !! 7%N = None
  /\ Tuple_destroy (Tuple_of_schema two_columns) payload_heap = payload_heap
  /\ exists p,
       tuple_data (fst (Tuple_allocate two_columns true payload_heap)) = Some p
       /\ payload_heap !! p = None
       /\ snd (Tuple_allocate two_columns true payload_heap) !! p
          = Some (replicate 12 0)
       /\ Tuple_destroy (fst (Tuple_allocate two_columns true payload_heap))
                        (snd (Tuple_allocate two_columns true payload_heap))
          = payload_heap.
Proof.
  destruct destructor_releases_tuple_data_only as (Hdestroy & Halloc & _).
  destruct (Hdestroy ValueType (Tuple_over two_columns 7%N) payload_heap)
    as (Hother & Hfreed & _).
  destruct (Hdestroy ValueType (Tuple_of_schema two_columns) payload_heap)
    as (_ & _ & Hnone).
  split; [|split; [|split]].
  - apply Hother. simpl. discriminate.
  - apply Hfreed. reflexivity.
  - apply Hnone. reflexivity.
  - apply (Halloc ValueType two_columns payload_heap).
Defined.

(** *** What SetValue writes *)

Section AnyValue.
Context {Value ValueType : Type} `{ValueInterface Value ValueType}.

Lemma SetValue_defined (h : Heap) (t : Tuple ValueType) (schema : Schema ValueType)
    (p : address) (c : nat) (col : Column ValueType) (buffer : list byte)
    (v : Value) :
  tuple_schema t = Some schema -> tuple_data t = Some p ->
  columns schema !! c = Some col -> h !! p = Some buffer ->
  SetValue h t c v
  = Some (<[p := store (column_offset col) (written col v) buffer]> h).
Proof.
  intros Hs Hd Hc Hb.
  unfold SetValue, GetDataPtr, GetType, IsInlined, GetOffset, GetLength,
    GetVariableLength, written.
  rewrite Hs, Hd. simpl. rewrite Hc. simpl.
  destruct (is_inlined col); simpl; rewrite Hb; reflexivity.
Qed.

Lemma GetValue_defined (h : Heap) (t : Tuple ValueType) (schema : Schema ValueType)
    (p : address) (c : nat) (col : Column ValueType) (buffer : list byte) :
  tuple_schema t = Some schema -> tuple_data t = Some p ->
  columns schema !! c = Some col -> h !! p = Some buffer ->
  GetValue h t c
  = Some (Deserialize (drop (column_offset col) buffer) (column_type col)
            (is_inlined col)).
Proof.
  intros Hs Hd Hc Hb.
  unfold GetValue, GetDataPtr, GetType, IsInlined, GetOffset.
  rewrite Hs, Hd. simpl. rewrite Hc. simpl. rewrite Hb. reflexivity.
Qed.

Lemma SetValue_inv (h h' : Heap) (t : Tuple ValueType) (c : nat) (v : Value) :
  SetValue h t c v = Some h' ->
  exists schema p col buffer,
    tuple_schema t = Some schema /\ tuple_data t = Some p
    /\ columns schema !! c = Some col /\ h !! p = Some buffer
    /\ h' = <[p := store (column_offset col) (written col v) buffer]> h.
Proof.
  intros Hset.
  destruct (tuple_schema t) as [schema|] eqn:Hs;
    [|unfold SetValue in Hset; rewrite Hs in Hset; discriminate].
  destruct (tuple_data t) as [p|] eqn:Hd;
    [|unfold SetValue in Hset; rewrite Hs, Hd in Hset; discriminate].
  destruct (columns schema !! c) as [col|] eqn:Hc;
    [|unfold SetValue, GetType in Hset; rewrite Hs, Hd in Hset;
      simpl in Hset; rewrite Hc in Hset; discriminate].
  destruct (h !! p) as [buffer|] eqn:Hb.
  - rewrite (SetValue_defined h t schema p c col buffer v Hs Hd Hc Hb) in Hset.
    inversion Hset. exists schema, p, col, buffer. repeat split; assumption.
  - unfold SetValue, GetDataPtr, GetType, IsInlined, GetOffset, GetLength,
      GetVariableLength in Hset.
    rewrite Hs, Hd in Hset. simpl in Hset. rewrite Hc in Hset. simpl in Hset.
    destruct (is_inlined col); simpl in Hset; rewrite Hb in Hset; discriminate.
Qed.

Lemma GetValue_inv (h : Heap) (t : Tuple ValueType) (c : nat) (x : Value) :
  GetValue h t c = Some x ->
  exists schema p col buffer,
    tuple_schema t = Some schema /\ tuple_data t = Some p
    /\ columns schema !! c = Some col /\ h !! p = Some buffer.
Proof.
  unfold GetValue, GetDataPtr, GetType, IsInlined, GetOffset.
  destruct (tuple_schema t) as [schema|] eqn:Hs; [|discriminate].
  destruct (tuple_data t) as [p|] eqn:Hd; [|discriminate]. simpl.
  destruct (columns schema !! c) as [col|] eqn:Hc; [|discriminate]. simpl.
  destruct (h !! p) as [buffer|] eqn:Hb; [|discriminate]. intros _.
  exists schema, p, col, buffer. repeat split; assumption.
Qed.

End AnyValue.

Lemma store_lookup_outside (off : nat) (bytes buffer : list byte) (i : nat) :
  (off + length bytes <= length buffer)%nat ->
  (i < off \/ off + length bytes <= i)%nat ->
  store off bytes buffer !! i = buffer !! i.
Proof.
  intros Hfit Hout. unfold store.
  destruct Hout as [Hlt|Hge].
  - rewrite lookup_app_l by (rewrite length_take; lia).
    apply lookup_take_lt. assumption.
  - rewrite lookup_app_r by (rewrite length_take; lia).
    rewrite length_take.
    rewrite lookup_app_r by lia.
    rewrite lookup_drop. f_equal. lia.
Qed.

Lemma store_read_back (off : nat) (bytes buffer : list byte) :
  (off <= length buffer)%nat ->
  take (length bytes) (drop off (store off bytes buffer)) = bytes.
Proof.
  intros Hoff. rewrite store_drop by assumption.
  apply take_app_length.
Qed.

Section AnyValueMore.
Context {Value ValueType : Type} `{ValueInterface Value ValueType}.

(** X10: what SetValue writes.  On a tuple with a schema and a live buffer,
    a SetValue whose serialized value lies within the buffer goes through; the
    buffer keeps its length, the bytes of the column are the serialized value,
    every byte outside the column is as before, no other block of the heap
    changes, and nothing is freed or allocated. *)
Theorem SetValue_writes_only_its_column (h : Heap) (t : Tuple ValueType)
    (schema : Schema ValueType) (p : address) (c : nat)
    (col : Column ValueType) (buffer : list byte) (v : Value) :
  tuple_schema t = Some schema -> tuple_data t = Some p ->
  columns schema !! c = Some col -> h !! p = Some buffer ->
  (column_offset col + length (written col v) <= length buffer)%nat ->
  exists h' buffer',
    SetValue h t c v = Some h'
    /\ h' !! p = Some buffer'
    /\ length buffer' = length buffer
    /\ take (length (written col v)) (drop (column_offset col) buffer')
       = written col v
    /\ (forall i,
          (i < column_offset col
           \/ column_offset col + length (written col v) <= i)%nat ->
          buffer' !! i = buffer !! i)
    /\ (forall q, q <> p -> h' !! q = h !! q)
    /\ dom h' = dom h.
Proof.
  intros Hs Hd Hc Hb Hfit.
  exists (<[p := store (column_offset col) (written col v) buffer]> h),
         (store (column_offset col) (written col v) buffer).
  split; [apply (SetValue_defined h t schema p c col buffer v Hs Hd Hc Hb)|].
  split; [apply lookup_insert_eq|].
  split; [apply store_length; assumption|].
  split; [apply store_read_back; lia|].
  split; [intros i Hi; apply store_lookup_outside; assumption|].
  split; [intros q Hq; apply lookup_insert_ne; congruence|].
  rewrite dom_insert_L.
  assert (Hp : p ∈ dom h) by (apply elem_of_dom; eauto).
  apply set_eq. intros x. rewrite elem_of_union, elem_of_singleton.
  split; [intros [->|Hx]; assumption | auto].
Qed.

(** X11: SetValue leaves the other columns alone.  When decoding column c'
    reads only its first [w] bytes, and these lie before or after the bytes
    written for column c, a SetValue on c that stays within the buffer does
    not change what GetValue returns for c'. *)
Theorem SetValue_keeps_other_columns (h h' : Heap) (t : Tuple ValueType)
    (schema : Schema ValueType) (c c' : nat) (col col' : Column ValueType)
    (p : address) (buffer : list byte) (v : Value) (w : nat) :
  tuple_schema t = Some schema -> tuple_data t = Some p ->
  columns schema !! c = Some col -> columns schema !! c' = Some col' ->
  h !! p = Some buffer ->
  (column_offset col + length (written col v) <= length buffer)%nat ->
  (column_offset col' + w <= column_offset col
   \/ column_offset col + length (written col v) <= column_offset col')%nat ->
  (forall b1 b2, take w b1 = take w b2 ->
     Deserialize b1 (column_type col') (is_inlined col')
     = Deserialize b2 (column_type col') (is_inlined col')) ->
  SetValue h t c v = Some h' ->
  GetValue h' t c' = GetValue h t c'.
Proof.
  intros Hs Hd Hc Hc' Hb Hfit Hdisj Hlocal Hset.
  rewrite (SetValue_defined h t schema p c col buffer v Hs Hd Hc Hb) in Hset.
  inversion Hset; subst h'. clear Hset.
  rewrite (GetValue_defined h t schema p c' col' buffer Hs Hd Hc' Hb).
  rewrite (GetValue_defined _ t schema p c' col'
             (store (column_offset col) (written col v) buffer) Hs Hd Hc')
    by apply lookup_insert_eq.
  f_equal. apply Hlocal. apply list_eq. intros i.
  destruct (decide (i < w)%nat) as [Hi|Hi].
  - rewrite !lookup_take_lt by assumption. rewrite !lookup_drop.
    apply store_lookup_outside; [assumption | lia].
  - rewrite !lookup_take_ge by lia. reflexivity.
Qed.

(** X12: the last write wins.  Two SetValues on the same column, both within
    the buffer, followed by GetValue return the second value cast to the
    column's type, when decoding its encoding gives it back. *)
Theorem SetValue_twice_last_wins (h : Heap) (t : Tuple ValueType)
    (schema : Schema ValueType) (c : nat) (col : Column ValueType)
    (p : address) (buffer : list byte) (v1 v2 : Value) :
  tuple_schema t = Some schema -> tuple_data t = Some p ->
  columns schema !! c = Some col -> h !! p = Some buffer ->
  (column_offset col + length (written col v1) <= length buffer)%nat ->
  (column_offset col + length (written col v2) <= length buffer)%nat ->
  (forall rest,
     Deserialize (written col v2 ++ rest) (column_type col) (is_inlined col)
     = CastAs v2 (column_type col)) ->
  exists h1 h2,
    SetValue h t c v1 = Some h1
    /\ SetValue h1 t c v2 = Some h2
    /\ GetValue h2 t c = Some (CastAs v2 (column_type col))
    /\ h2 = <[p := store (column_offset col) (written col v2)
                     (store (column_offset col) (written col v1) buffer)]> h.
Proof.
  intros Hs Hd Hc Hb Hfit1 Hfit2 Hround.
  pose proof (store_length _ _ _ Hfit1) as Hlen1.
  set (b1 := store (column_offset col) (written col v1) buffer) in *.
  set (b2 := store (column_offset col) (written col v2) b1).
  exists (<[p := b1]> h), (<[p := b2]> (<[p := b1]> h)).
  split; [apply (SetValue_defined h t schema p c col buffer v1 Hs Hd Hc Hb)|].
  split; [apply (SetValue_defined _ t schema p c col b1 v2 Hs Hd Hc
                   (lookup_insert_eq _ _ _))|].
  split.
  - rewrite (GetValue_defined _ t schema p c col b2 Hs Hd Hc
               (lookup_insert_eq _ _ _)).
    unfold b2. rewrite store_drop by lia. rewrite Hround. reflexivity.
  - apply insert_insert_eq.
Qed.

(** X13: the whole life of an allocated tuple.  The allocating constructor
    gives a tuple whose buffer has the schema's length; a SetValue on a
    column that lies within that length goes through, GetValue returns the
    cast value, every block that was live before the allocation is as it
    was, and destroying the tuple afterwards gives back the heap as it was
    before the allocation. *)
Theorem allocated_tuple_life (h : Heap) (schema : Schema ValueType) (c : nat)
    (col : Column ValueType) (v : Value) :
  columns schema !! c = Some col ->
  (column_offset col + length (written col v) <= length_ schema)%nat ->
  (forall rest,
     Deserialize (written col v ++ rest) (column_type col) (is_inlined col)
     = CastAs v (column_type col)) ->
  exists h2,
    Tuple_GetLength (fst (Tuple_allocate schema true h)) = Some (length_ schema)
    /\ IsNull (fst (Tuple_allocate schema true h)) = false
    /\ SetValue (snd (Tuple_allocate schema true h))
                (fst (Tuple_allocate schema true h)) c v = Some h2
    /\ GetValue h2 (fst (Tuple_allocate schema true h)) c
       = Some (CastAs v (column_type col))
    /\ (forall q buffer, h !! q = Some buffer -> h2 !! q = Some buffer)
    /\ Tuple_destroy (fst (Tuple_allocate schema true h)) h2 = h.
Proof.
  intros Hc Hfit Hround. simpl.
  set (p := fresh (dom h)).
  assert (Hfresh : h !! p = None) by (apply not_elem_of_dom, is_fresh).
  set (t := mkTuple (Some schema) (Some p)).
  set (h1 := <[p := replicate (length_ schema) 0]> h).
  assert (Hb : h1 !! p = Some (replicate (length_ schema) 0))
    by apply lookup_insert_eq.
  eexists. split; [reflexivity|]. split; [reflexivity|].
  split; [apply (SetValue_defined h1 t schema p c col _ v eq_refl eq_refl Hc Hb)|].
  split; [|split].
  - rewrite (GetValue_defined _ t schema p c col _ eq_refl eq_refl Hc
               (lookup_insert_eq _ _ _)).
    rewrite store_drop by (rewrite length_replicate; lia).
    rewrite Hround. reflexivity.
  - intros q buffer Hq.
    assert (q <> p) by congruence.
    unfold h1. rewrite !lookup_insert_ne by congruence. assumption.
  - unfold Tuple_destroy, h1. simpl.
    rewrite insert_insert_eq, delete_insert_eq.
    apply delete_id. assumption.
Qed.

(** X15: copies share the buffer.  A tuple made by the copy constructor or
    by assignment points at the buffer of the original: a value set through
    the copy is read through the original and a value set through the
    original is read through the copy (the cast value, when its serialization
    lies within the buffer and decodes to it), and destroying the copy
    releases the block that the original points at, and no other block. *)
Theorem copies_share_the_buffer (h : Heap) (t this : Tuple ValueType)
    (schema : Schema ValueType) (p : address) (c : nat)
    (col : Column ValueType) (buffer : list byte) (v : Value) :
  tuple_schema t = Some schema -> tuple_data t = Some p ->
  columns schema !! c = Some col -> h !! p = Some buffer ->
  (column_offset col + length (written col v) <= length buffer)%nat ->
  (forall rest,
     Deserialize (written col v ++ rest) (column_type col) (is_inlined col)
     = CastAs v (column_type col)) ->
  (exists h',
     SetValue h (Tuple_copy t) c v = Some h'
     /\ GetValue h' t c = Some (CastAs v (column_type col)))
  /\ (exists h',
        SetValue h t c v = Some h'
        /\ GetValue h' (Tuple_copy t) c = Some (CastAs v (column_type col)))
  /\ (exists h',
        SetValue h (Tuple_assign this t) c v = Some h'
        /\ GetValue h' t c = Some (CastAs v (column_type col)))
  /\ (exists h',
        SetValue h t c v = Some h'
        /\ GetValue h' (Tuple_assign this t) c = Some (CastAs v (column_type col)))
  /\ Tuple_destroy (Tuple_copy t) h !! p = None
  /\ Tuple_destroy (Tuple_assign this t) h !! p = None
  /\ (forall q, q <> p ->
        Tuple_destroy (Tuple_copy t) h !! q = h !! q
        /\ Tuple_destroy (Tuple_assign this t) h !! q = h !! q).
Proof.
  intros Hs Hd Hc Hb Hfit Hround.
  set (b' := store (column_offset col) (written col v) buffer).
  assert (Hread : forall t' : Tuple ValueType,
            tuple_schema t' = Some schema -> tuple_data t' = Some p ->
            GetValue (<[p := b']> h) t' c = Some (CastAs v (column_type col))).
  { intros t' Hs' Hd'.
    rewrite (GetValue_defined _ t' schema p c col b' Hs' Hd' Hc
               (lookup_insert_eq _ _ _)).
    unfold b'. rewrite store_drop by lia. rewrite Hround. reflexivity. }
  assert (Hwrite : forall t' : Tuple ValueType,
            tuple_schema t' = Some schema -> tuple_data t' = Some p ->
            SetValue h t' c v = Some (<[p := b']> h)).
  { intros t' Hs' Hd'.
    apply (SetValue_defined h t' schema p c col buffer v Hs' Hd' Hc Hb). }
  split; [exists (<[p := b']> h); split; [apply Hwrite | apply Hread]; assumption|].
  split; [exists (<[p := b']> h); split; [apply Hwrite | apply Hread]; assumption|].
  split; [exists (<[p := b']> h); split; [apply Hwrite | apply Hread]; assumption|].
  split; [exists (<[p := b']> h); split; [apply Hwrite | apply Hread]; assumption|].
  unfold Tuple_destroy, Tuple_copy, Tuple_assign. simpl. rewrite Hd.
  split; [apply lookup_delete_eq|]. split; [apply lookup_delete_eq|].
  intros q Hq. split; apply lookup_delete_ne; congruence.
Qed.

End AnyValueMore.

(** X10 at the BIGINT value 300 set in the second column of the tuple over
    the buffer at address 7. *)
Lemma SetValue_writes_only_its_column_witness :
  exists h' buffer',
    SetValue caller_heap (Tuple_over two_columns 7%N) 1 (mkValue BIGINT 300)
    = Some h'
    /\ h' !! 7%N = Some buffer'
    /\ length buffer' = length (replicate 12 0)
    /\ take (length (written (mkColumn BIGINT 4 true 8 0) (mkValue BIGINT 300)))
            (drop 4 buffer')
       = written (mkColumn BIGINT 4 true 8 0) (mkValue BIGINT 300)
    /\ (forall i,
          (i < 4
           \/ 4 + length (written (mkColumn BIGINT 4 true 8 0) (mkValue BIGINT 300))
              <= i)%nat ->
          buffer' !! i = replicate 12 0 !! i)
    /\ (forall q, q <> 7%N -> h' !! q = caller_heap !! q)
    /\ dom h' = dom caller_heap.
Proof.
  refine (SetValue_writes_only_its_column caller_heap (Tuple_over two_columns 7%N)
            two_columns 7%N 1 (mkColumn BIGINT 4 true 8 0) (replicate 12 0)
            (mkValue BIGINT 300) _ _ _ _ _).
  - reflexivity.
  - reflexivity.
  - reflexivity.
  - reflexivity.
  - simpl. lia.
Defined.

Lemma small_Value_reads_width (type : ValueType) (inlined : bool)
    (b1 b2 : list byte) :
  take (width type) b1 = take (width type) b2 ->
  Deserialize b1 type inlined = Deserialize b2 type inlined.
Proof.
  intros Hb. simpl. unfold decode. rewrite Hb. reflexivity.
Qed.

(** X11 at the INTEGER value 9 set in the first column, next to the BIGINT
    column, whose decoding reads 8 bytes. *)
Lemma SetValue_keeps_other_columns_witness :
  GetValue (<[ 7%N := [9; 0; 0; 0; 0; 0; 0; 0; 0; 0; 0; 0] ]> caller_heap)
           (Tuple_over two_columns 7%N) 1
  = GetValue caller_heap (Tuple_over two_columns 7%N) 1.
Proof.
  apply (SetValue_keeps_other_columns caller_heap _ (Tuple_over two_columns 7%N)
           two_columns 0 1 (mkColumn INTEGER 0 true 4 0)
           (mkColumn BIGINT 4 true 8 0) 7%N (replicate 12 0)
           (mkValue INTEGER 9) 8).
  - reflexivity.
  - reflexivity.
  - reflexivity.
  - reflexivity.
  - reflexivity.
  - simpl. lia.
  - right. simpl. lia.
  - apply (small_Value_reads_width BIGINT true).
  - vm_compute. reflexivity.
Defined.

(** X12 at the BIGINT values 300 and -2 set one after the other in the second
    column. *)
Lemma SetValue_twice_last_wins_witness :
  exists h1 h2,
    SetValue caller_heap (Tuple_over two_columns 7%N) 1 (mkValue BIGINT 300)
    = Some h1
    /\ SetValue h1 (Tuple_over two_columns 7%N) 1 (mkValue BIGINT (-2)) = Some h2
    /\ GetValue h2 (Tuple_over two_columns 7%N) 1 = Some (mkValue BIGINT (-2))
    /\ h2 = <[7%N := store 4 (written (mkColumn BIGINT 4 true 8 0)
                                 (mkValue BIGINT (-2)))
                       (store 4 (written (mkColumn BIGINT 4 true 8 0)
                                   (mkValue BIGINT 300)) (replicate 12 0))]>
              caller_heap.
Proof.
  refine (SetValue_twice_last_wins caller_heap (Tuple_over two_columns 7%N)
            two_columns 1 (mkColumn BIGINT 4 true 8 0) 7%N (replicate 12 0)
            (mkValue BIGINT 300) (mkValue BIGINT (-2)) _ _ _ _ _ _ _).
  - reflexivity.
  - reflexivity.
  - reflexivity.
  - reflexivity.
  - simpl. lia.
  - simpl. lia.
  - intros rest. reflexivity.
Defined.

(** X13 at a tuple allocated next to the blocks at the addresses 7 and 9,
    with the BIGINT value 300 in its second column. *)
Lemma allocated_tuple_life_witness :
  exists h2,
    Tuple_GetLength (fst (Tuple_allocate two_columns true payload_heap)) = Some 12%nat
    /\ IsNull (fst (Tuple_allocate two_columns true payload_heap)) = false
    /\ SetValue (snd (Tuple_allocate two_columns true payload_heap))
                (fst (Tuple_allocate two_columns true payload_heap)) 1
                (mkValue BIGINT 300) = Some h2
    /\ GetValue h2 (fst (Tuple_allocate two_columns true payload_heap)) 1
       = Some (mkValue BIGINT 300)
    /\ (forall q buffer, payload_heap !! q = Some buffer -> h2 !! q = Some buffer)
    /\ Tuple_destroy (fst (Tuple_allocate two_columns true payload_heap)) h2
       = payload_heap.
Proof.
  refine (allocated_tuple_life payload_heap two_columns 1
            (mkColumn BIGINT 4 true 8 0) (mkValue BIGINT 300) _ _ _).
  - reflexivity.
  - simpl. lia.
  - intros rest. reflexivity.
Defined.

(** X15 at the tuple over the buffer at address 7, its copy and the default
    tuple assigned from it, with the BIGINT value 300 in the second column. *)
Lemma copies_share_the_buffer_witness :
  let t := Tuple_over two_columns 7%N in
  (exists h',
     SetValue caller_heap (Tuple_copy t) 1 (mkValue BIGINT 300) = Some h'
     /\ GetValue h' t 1 = Some (mkValue BIGINT 300))
  /\ (exists h',
        SetValue caller_heap t 1 (mkValue BIGINT 300) = Some h'
        /\ GetValue h' (Tuple_copy t) 1 = Some (mkValue BIGINT 300))
  /\ (exists h',
        SetValue caller_heap (Tuple_assign Tuple_default t) 1 (mkValue BIGINT 300)
        = Some h'
        /\ GetValue h' t 1 = Some (mkValue BIGINT 300))
  /\ (exists h',
        SetValue caller_heap t 1 (mkValue BIGINT 300) = Some h'
        /\ GetValue h' (Tuple_assign Tuple_default t) 1 = Some (mkValue BIGINT 300))
  /\ Tuple_destroy (Tuple_copy t) caller_heap !! 7%N = None
  /\ Tuple_destroy (Tuple_assign Tuple_default t) caller_heap !! 7%N = None
  /\ (forall q, q <> 7%N ->
        Tuple_destroy (Tuple_copy t) caller_heap !! q = caller_heap !! q
        /\ Tuple_destroy (Tuple_assign Tuple_default t) caller_heap !! q
           = caller_heap !! q).
Proof.
  refine (copies_share_the_buffer caller_heap (Tuple_over two_columns 7%N)
            Tuple_default two_columns 7%N 1 (mkColumn BIGINT 4 true 8 0)
            (replicate 12 0) (mkValue BIGINT 300) _ _ _ _ _ _).
  - reflexivity.
  - reflexivity.
  - reflexivity.
  - reflexivity.
  - simpl. lia.
  - intros rest. reflexivity.
Defined.

End TupleProperties.

(** ** Properties of the optimizer group *)

Module GroupProperties.
Import Optimizer.

Lemma call_keeps_flags (g : Group) (c : GroupCall) :
  implb (HasExplored g) (HasExplored (call g c)) = true
  /\ implb (HasImplemented g) (HasImplemented (call g c)) = true.
Proof.
  destruct c; unfold HasExplored, HasImplemented; simpl;
    destruct (has_explored_ g), (has_implemented_ g); split; reflexivity.
Qed.

Lemma calls_keep_flags (cs : list GroupCall) :
  forall g,
    (HasExplored g = true -> HasExplored (calls_on g cs) = true)
    /\ (HasImplemented g = true -> HasImplemented (calls_on g cs) = true).
Proof.
  unfold calls_on.
  induction cs as [|c cs IH]; intros g; simpl; [tauto|].
  destruct (IH (call g c)) as [IHe IHi].
  destruct (call_keeps_flags g c) as [He Hi].
  split; intros Hg; [apply IHe | apply IHi].
  - rewrite Hg in He. exact He.
  - rewrite Hg in Hi. exact Hi.
Qed.

(** C10, as the code has it: after SetExplorationFlag, HasExplored returns
    true however many of the member functions defined in group.h are called
    afterwards, and the same for SetImplementationFlag and HasImplemented;
    none of these functions takes a flag from true to false.  The implicit
    copy assignment does not keep the flags: after [g = rhs] both flags of g
    are those of rhs, whatever they were before. *)
Theorem group_flags_are_monotone (g rhs : Group) (cs : list GroupCall) :
  HasExplored (SetExplorationFlag g) = true
  /\ HasImplemented (SetImplementationFlag g) = true
  /\ HasExplored (calls_on (SetExplorationFlag g) cs) = true
  /\ HasImplemented (calls_on (SetImplementationFlag g) cs) = true
  /\ (forall c, implb (HasExplored g) (HasExplored (call g c)) = true)
  /\ (forall c, implb (HasImplemented g) (HasImplemented (call g c)) = true)
  /\ HasExplored (Group_assign (calls_on (SetExplorationFlag g) cs) rhs)
     = HasExplored rhs
  /\ HasImplemented (Group_assign (calls_on (SetImplementationFlag g) cs) rhs)
     = HasImplemented rhs.
Proof.
  split; [reflexivity|]. split; [reflexivity|].
  split; [apply calls_keep_flags; reflexivity|].
  split; [apply calls_keep_flags; reflexivity|].
  split; [intros c; apply call_keeps_flags|].
  split; [intros c; apply call_keeps_flags|].
  split; reflexivity.
Qed.

(** C10 fails as stated: a group whose flags were set through the setters
    has both flags down after it is assigned a group whose flags are down;
    the copy assignment is a public operation of the class. *)
Lemma copy_assignment_resets_flags :
  HasExplored explored_group = true
  /\ HasImplemented explored_group = true
  /\ HasExplored (Group_assign explored_group unexplored_group) = false
  /\ HasImplemented (Group_assign explored_group unexplored_group) = false.
Proof. repeat split. Qed.

(** X17: the flags of a group after any calls.  After any sequence of the
    member functions defined in group.h, HasExplored returns true exactly
    when it did before or SetExplorationFlag is among the calls, and
    HasImplemented likewise for SetImplementationFlag: neither setter
    touches the other flag, and the id, the items, the expressions and the
    costs of the group are as before. *)
Theorem group_flags_after_calls (g : Group) (cs : list GroupCall) :
  HasExplored (calls_on g cs) = HasExplored g || existsb sets_exploration cs
  /\ HasImplemented (calls_on g cs)
     = HasImplemented g || existsb sets_implementation cs
  /\ id_ (calls_on g cs) = id_ g
  /\ items_ (calls_on g cs) = items_ g
  /\ expressions_ (calls_on g cs) = expressions_ g
  /\ lowest_cost_expressions_ (calls_on g cs) = lowest_cost_expressions_ g.
Proof.
  unfold calls_on, HasExplored, HasImplemented. revert g.
  induction cs as [|c cs IH]; intros g; simpl.
  - rewrite !orb_false_r. repeat split.
  - destruct (IH (call g c)) as (He & Hi & Hid & Hit & Hex & Hlo).
    rewrite He, Hi, Hid, Hit, Hex, Hlo.
    destruct c; simpl; rewrite ?orb_true_r, ?orb_true_l; repeat split;
      try reflexivity; destruct (has_explored_ g), (has_implemented_ g);
      reflexivity.
Qed.

End GroupProperties.
